(** * TSValidator: a shallow embedding of the schema/validator core

    Sources embedded here:
    - [src/types.ts]       ValidationResult, ValidationError, ValidationOptions
    - [src/validators.ts]  BaseSchema, ObjectValidator, UnionValidator
    - the builder module   validate.string / number / boolean / date / email /
                           url / minLength / maxLength / pattern / array /
                           object / union

    Conventions of the model.
    - A JavaScript value is a term of [value].  Numbers are integers ([Z]):
      the validators only look at [typeof] of an input number, and the length
      bounds of minLength/maxLength are compared with a string length.
    - A string is a [string] of 8-bit characters; [String.length] is the
      JavaScript [.length].
    - An object is the list of its own properties in insertion order; an
      array is the dense list of its items.  A property read sees own
      properties only (nothing inherited from a prototype).
    - A schema is the record of the fields of a [BaseSchema] instance, with
      the validator closure as a function.  [required] and [nullable] mutate
      the receiver and return it: here they map the state of the receiver to
      its next state.
    - A promise is represented by the way it eventually settles.  What
      [validate] returns is an [outcome]: a result object, or a promise of
      one. *)

From Stdlib Require Import String Ascii List ZArith Bool Lia DecimalString.
Import ListNotations.
Open Scope string_scope.
Open Scope list_scope.

Set Implicit Arguments.
Set Warnings "-register-all".

(** ** JavaScript values *)

Inductive value : Type :=
| VUndefined
| VNull
| VBool (b : bool)
| VNum (n : Z)
| VStr (s : string)
| VDate (time : option Z)            (* [None]: getTime() is NaN *)
| VArr (items : list value)
| VObj (props : list (string * value)).

Inductive jstype : Type :=
| TUndefined | TObject | TBoolean | TNumber | TString.

Definition jstype_eqb (a b : jstype) : bool :=
  match a, b with
  | TUndefined, TUndefined | TObject, TObject | TBoolean, TBoolean
  | TNumber, TNumber | TString, TString => true
  | _, _ => false
  end.

(** [typeof v] *)
Definition typeof (v : value) : jstype :=
  match v with
  | VUndefined => TUndefined
  | VNull => TObject
  | VBool _ => TBoolean
  | VNum _ => TNumber
  | VStr _ => TString
  | VDate _ => TObject
  | VArr _ => TObject
  | VObj _ => TObject
  end.

(** [v === null], [v === undefined], [Array.isArray(v)] *)
Definition is_null (v : value) : bool :=
  match v with VNull => true | _ => false end.

Definition is_undefined (v : value) : bool :=
  match v with VUndefined => true | _ => false end.

Definition Array_isArray (v : value) : bool :=
  match v with VArr _ => true | _ => false end.

(** [String(n)] for an integer [n] that is a safe integer of the host (from
    1e21 on the host prints an exponent), and [index.toString()] *)
Definition String_of_number (n : Z) : string :=
  NilZero.string_of_int (Z.to_int n).

Definition index_toString (i : nat) : string :=
  NilZero.string_of_uint (Nat.to_uint i).

(** Own properties of an object as an association list.  [assoc_set] is
    the assignment [result[key] = v] for every key but ["__proto__"], which
    the host hands to a setter. *)
Fixpoint assoc_get (props : list (string * value)) (key : string) : value :=
  match props with
  | [] => VUndefined
  | (k, v) :: rest => if String.eqb k key then v else assoc_get rest key
  end.

Fixpoint assoc_set (props : list (string * value)) (key : string) (v : value)
  : list (string * value) :=
  match props with
  | [] => [(key, v)]
  | (k, w) :: rest =>
      if String.eqb k key then (k, v) :: rest
      else (k, w) :: assoc_set rest key v
  end.

(** The index an array property key denotes, if any: the [i] below [n] whose
    decimal form is [key]. *)
Fixpoint find_index (key : string) (i n : nat) : option nat :=
  match n with
  | O => None
  | S n' => if String.eqb (index_toString i) key then Some i
            else find_index key (S i) n'
  end.

(** [value[key]] on a value that passed the [typeof value === 'object'] and
    non-null test.  Dates carry no own property.  Own properties only are
    read: a key that the value inherits from its prototype and does not own
    reads as undefined here. *)
Definition get_prop (v : value) (key : string) : value :=
  match v with
  | VObj props => assoc_get props key
  | VArr items =>
      if String.eqb key "length" then VNum (Z.of_nat (List.length items))
      else match find_index key 0 (List.length items) with
           | Some i => nth i items VUndefined
           | None => VUndefined
           end
  | _ => VUndefined
  end.

(** ** types.ts *)

Record ValidationError : Type := mkError {
  path : list string;
  message : string
}.

Record ValidationResult : Type := mkResult {
  success : bool;
  value_ : option value;                       (* value?: T *)
  errors : option (list ValidationError)       (* errors?: ValidationError[] *)
}.

Record Messages : Type := mkMessages {
  m_required : option string;
  m_type : option string;
  m_nullable : option string;
  m_custom : option string;
  m_email : option string;
  m_url : option string;
  m_minLength : option string;
  m_maxLength : option string;
  m_pattern : option string
}.

Record ValidationOptions : Type := mkOptions {
  messages : option Messages
}.

(** The keys of [ValidationOptions.messages]. *)
Inductive kind : Type :=
| Krequired | Ktype | Knullable | Kcustom | Kemail | Kurl
| KminLength | KmaxLength | Kpattern.

Definition messages_get (m : Messages) (k : kind) : option string :=
  match k with
  | Krequired => m_required m
  | Ktype => m_type m
  | Knullable => m_nullable m
  | Kcustom => m_custom m
  | Kemail => m_email m
  | Kurl => m_url m
  | KminLength => m_minLength m
  | KmaxLength => m_maxLength m
  | Kpattern => m_pattern m
  end.

(** [options?.messages?.k] where [options] is an optional argument. *)
Definition opt_message (options : option ValidationOptions) (k : kind)
  : option string :=
  match options with
  | None => None
  | Some o => match messages o with
              | None => None
              | Some m => messages_get m k
              end
  end.

(** An optional string is truthy when it is defined and not empty. *)
Definition truthy (a : option string) : bool :=
  match a with
  | Some s => negb (String.eqb s "")
  | None => false
  end.

(** [a || b] on optional strings, and [a || d] with a string literal [d]. *)
Definition js_or (a b : option string) : option string :=
  if truthy a then a else b.

Definition or_default (a : option string) (d : string) : string :=
  match a with
  | Some s => if String.eqb s "" then d else s
  | None => d
  end.

(** ** Promises and outcomes *)

Inductive promise (A : Type) : Type :=
| Fulfilled (a : A)
| Rejected
| Unsettled.

Arguments Rejected {A}.
Arguments Unsettled {A}.

(** [p.then(f)] *)
Definition promise_then {A B : Type} (p : promise A) (f : A -> B) : promise B :=
  match p with
  | Fulfilled a => Fulfilled (f a)
  | Rejected => Rejected
  | Unsettled => Unsettled
  end.

(** What a custom predicate returns: [boolean | Promise<boolean>]. *)
Inductive predicate_result : Type :=
| Sync (b : bool)
| Async (p : promise bool).

(** What [validate] returns at run time. *)
Inductive outcome : Type :=
| Ready (r : ValidationResult)
| Deferred (p : promise ValidationResult).

(** Property reads on what a child's [validate] returned.  A promise object
    has none of the three properties, so each read yields [undefined]. *)
Definition get_success (o : outcome) : bool :=
  match o with
  | Ready r => success r
  | Deferred _ => false
  end.

Definition get_errors (o : outcome) : option (list ValidationError) :=
  match o with
  | Ready r => errors r
  | Deferred _ => None
  end.

Definition get_value (o : outcome) : value :=
  match o with
  | Ready r => match value_ r with Some v => v | None => VUndefined end
  | Deferred _ => VUndefined
  end.

(** The two object literals every validator returns. *)
Definition ok (v : value) : ValidationResult :=
  mkResult true (Some v) None.

Definition fail (errs : list ValidationError) : ValidationResult :=
  mkResult false None (Some errs).

Definition fail1 (msg : string) : ValidationResult :=
  fail [mkError [] msg].

Definition prepend (segment : string) (error : ValidationError)
  : ValidationError :=
  mkError (segment :: path error) (message error).

(** [result.errors?.map(error => ({...error, path: [seg, ...error.path]}))
    ?? []] *)
Definition relabel (segment : string) (es : option (list ValidationError))
  : list ValidationError :=
  match es with
  | Some l => map (prepend segment) l
  | None => []
  end.

(** [result.errors ?? []] *)
Definition errors_or_nil (es : option (list ValidationError))
  : list ValidationError :=
  match es with
  | Some l => l
  | None => []
  end.

(** ** validators.ts *)

(** The table [defaultMessages] of the builder module; the table of the same
    name in validators.ts holds its entries [required], [nullable], [object]
    and [union], with the same texts. *)
Module defaultMessages.
Definition string : String.string := "Value must be a string".
Definition number : String.string := "Value must be a number".
Definition boolean : String.string := "Value must be a boolean".
Definition date : String.string := "Value must be a date or date string".
Definition invalidDate : String.string := "Invalid date".
Definition array : String.string := "Value must be an array".
Definition object : String.string := "Value must be an object".
Definition required : String.string := "Value is required".
Definition nullable : String.string := "Value cannot be null".
Definition email : String.string := "Value must be a valid email address".
Definition url : String.string := "Value must be a valid URL".
Definition minLength : String.string :=
  "Value must have at least {min} characters".
Definition maxLength : String.string :=
  "Value must have at most {max} characters".
Definition pattern : String.string :=
  "Value does not match the required pattern".
Definition union : String.string :=
  "Value does not match any schema in the union".
End defaultMessages.

(** The fields of a [BaseSchema] instance (validators.ts, lines 25-36). *)
Record BaseSchema : Type := mkBaseSchema {
  isRequired : bool;
  isNullable : bool;
  requiredMessage : option string;
  nullableMessage : option string;
  validator : value -> option ValidationOptions -> outcome
}.

(** [new BaseSchema(validator)] *)
Definition new_BaseSchema
  (validator : value -> option ValidationOptions -> outcome) : BaseSchema :=
  mkBaseSchema false false None None validator.

(** [BaseSchema.validate] (lines 38-73) *)
Definition validate (this : BaseSchema) (v : value)
  (options : option ValidationOptions) : outcome :=
  if is_null v then
    if isNullable this then Ready (ok VNull)
    else Ready (fail1 (or_default (js_or (opt_message options Knullable)
                                         (nullableMessage this))
                                  defaultMessages.nullable))
  else if is_undefined v && isRequired this then
    Ready (fail1 (or_default (js_or (opt_message options Krequired)
                                    (requiredMessage this))
                             defaultMessages.required))
  else validator this v options.

(** [BaseSchema.required] (lines 75-79): sets the flag and the message on
    the receiver and returns the receiver. *)
Definition required (this : BaseSchema) (message : option string)
  : BaseSchema :=
  mkBaseSchema true (isNullable this) message (nullableMessage this)
               (validator this).

(** [BaseSchema.nullable] (lines 81-85) *)
Definition nullable (this : BaseSchema) (message : option string)
  : BaseSchema :=
  mkBaseSchema (isRequired this) true (requiredMessage this) message
               (validator this).

(** The result object built in both branches of [custom]. *)
Definition custom_result (isValid : bool) (v : value)
  (message : option string) (options : option ValidationOptions)
  : ValidationResult :=
  if isValid then ok v
  else fail1 (or_default (js_or message (opt_message options Kcustom))
                         "Invalid value").

(** [BaseSchema.custom] (lines 87-123): the closure of the returned schema
    mentions neither [this.validator] nor any field of [this]. *)
Definition custom (this : BaseSchema)
  (validationFn : value -> predicate_result) (message : option string)
  : BaseSchema :=
  new_BaseSchema (fun v options =>
    match validationFn v with
    | Async result =>
        Deferred (promise_then result
                    (fun isValid => custom_result isValid v message options))
    | Sync result => Ready (custom_result result v message options)
    end).

(** The body of the loop of [ObjectValidator] over
    [Object.entries(this.shape)] (lines 150-164); the state is the pair of the
    locals [errors] and [result]. *)
Definition object_step (v : value) (options : option ValidationOptions)
  (st : list ValidationError * list (string * value))
  (entry : string * BaseSchema)
  : list ValidationError * list (string * value) :=
  let (key, schema) := entry in
  let fieldValue := get_prop v key in
  let fieldResult := validate schema fieldValue options in
  if negb (get_success fieldResult) then
    (fst st ++ relabel key (get_errors fieldResult), snd st)
  else
    (fst st, assoc_set (snd st) key (get_value fieldResult)).

(** [new ObjectValidator(shape, typeMessage)] (lines 126-173); [shape] is
    given by its entries, in the order of [Object.entries]. *)
Definition ObjectValidator (shape : list (string * BaseSchema))
  (typeMessage : option string) : BaseSchema :=
  new_BaseSchema (fun v options =>
    if negb (jstype_eqb (typeof v) TObject) || is_null v then
      Ready (fail1 (or_default (js_or (opt_message options Ktype) typeMessage)
                               defaultMessages.object))
    else
      let (errors, result) :=
        fold_left (object_step v options) shape ([], []) in
      if (0 <? List.length errors)%nat then Ready (fail errors)
      else Ready (ok (VObj result))).

(** The loop of [UnionValidator] and the return after it (lines 178-197):
    returns at the first branch whose result reads as successful. *)
Fixpoint union_loop (unionMessage : option string) (schemas : list BaseSchema)
  (v : value) (options : option ValidationOptions)
  (errors : list ValidationError) : outcome :=
  match schemas with
  | [] =>
      Ready (fail (mkError [] (or_default unionMessage defaultMessages.union)
                     :: errors))
  | schema :: rest =>
      let result := validate schema v options in
      if get_success result then result
      else union_loop unionMessage rest v options
             (errors ++ errors_or_nil (get_errors result))
  end.

(** [new UnionValidator(schemas, unionMessage)] *)
Definition UnionValidator (schemas : list BaseSchema)
  (unionMessage : option string) : BaseSchema :=
  new_BaseSchema
    (fun v options => union_loop unionMessage schemas v options []).

(** ** The builder module *)

(** A regular expression without the [g] and [y] flags, given by what
    [regex.test] answers. *)
Record RegExp : Type := mkRegExp {
  test : string -> bool
}.

(** [s.replace(pat, rep)] with a string pattern and a replacement text free
    of dollar signs: the first occurrence of [pat] is replaced. *)
Fixpoint drop_chars (n : nat) (s : string) : string :=
  match n, s with
  | O, _ => s
  | S n', String _ s' => drop_chars n' s'
  | S _, EmptyString => EmptyString
  end.

Fixpoint String_replace (pat rep s : string) : string :=
  if String.prefix pat s
  then String.append rep (drop_chars (String.length pat) s)
  else match s with
       | EmptyString => EmptyString
       | String c s' => String c (String_replace pat rep s')
       end.

(** The [forEach] callback of [array] (builder module, lines 249-261); the
    state is the pair of the locals [errors] and [result]. *)
Definition array_step (schema : BaseSchema)
  (options : option ValidationOptions)
  (st : list ValidationError * list value) (item : value) (index : nat)
  : list ValidationError * list value :=
  let itemResult := validate schema item options in
  if negb (get_success itemResult) then
    (fst st ++ relabel (index_toString index) (get_errors itemResult), snd st)
  else
    (fst st, snd st ++ [get_value itemResult]).

(** [items.forEach((item, index) => ...)] from index [index] on, threading the
    state the callback mutates.  [items] has no holes (the host's [forEach]
    skips those of a sparse array). *)
Fixpoint forEach {S : Type} (f : S -> value -> nat -> S)
  (items : list value) (index : nat) (st : S) : S :=
  match items with
  | [] => st
  | item :: rest => forEach f rest (Datatypes.S index) (f st item index)
  end.

(** The object [validate] of the builder module (lines 36-286). *)
Module Validate.

Definition string (typeMessage : option String.string) : BaseSchema :=
  new_BaseSchema (fun v options =>
    if negb (jstype_eqb (typeof v) TString) then
      Ready (fail1 (or_default (js_or (opt_message options Ktype) typeMessage)
                               defaultMessages.string))
    else Ready (ok v)).

Definition number (typeMessage : option String.string) : BaseSchema :=
  new_BaseSchema (fun v options =>
    if negb (jstype_eqb (typeof v) TNumber) then
      Ready (fail1 (or_default (js_or (opt_message options Ktype) typeMessage)
                               defaultMessages.number))
    else Ready (ok v)).

Definition boolean (typeMessage : option String.string) : BaseSchema :=
  new_BaseSchema (fun v options =>
    if negb (jstype_eqb (typeof v) TBoolean) then
      Ready (fail1 (or_default (js_or (opt_message options Ktype) typeMessage)
                               defaultMessages.boolean))
    else Ready (ok v)).

(** [typeof value !== 'string' || bad value] *)
Definition not_string_or (bad : String.string -> bool) (v : value) : bool :=
  match v with
  | VStr s => bad s
  | _ => true
  end.

(** [value instanceof Date] and [isNaN(date.getTime())] *)
Definition instanceof_Date (v : value) : bool :=
  match v with VDate _ => true | _ => false end.

Definition getTime_isNaN (date : value) : bool :=
  match date with VDate None => true | _ => false end.

Section Engine.
(** What the host's [new Date(s).getTime()] answers on a string ([None]
    for NaN), and the two regular expression literals of [email] and
    [url]. *)
Variable Date_parse : String.string -> option Z.
Variable email_regex : RegExp.
Variable url_regex : RegExp.

(** [value instanceof Date ? value : new Date(value)], on a date or a
    string *)
Definition to_Date (v : value) : value :=
  if instanceof_Date v then v
  else match v with
       | VStr s => VDate (Date_parse s)
       | _ => v
       end.

Definition date (typeMessage invalidMessage : option String.string)
  : BaseSchema :=
  new_BaseSchema (fun v options =>
    if negb (instanceof_Date v) && negb (jstype_eqb (typeof v) TString) then
      Ready (fail1 (or_default (js_or (opt_message options Ktype)
                                      typeMessage)
                               defaultMessages.date))
    else
      let date := to_Date v in
      if getTime_isNaN date then
        Ready (fail1 (or_default invalidMessage
                                 defaultMessages.invalidDate))
      else Ready (ok date)).

Definition email (typeMessage : option String.string) : BaseSchema :=
  new_BaseSchema (fun v options =>
    if not_string_or (fun s => negb (test email_regex s)) v then
      Ready (fail1 (or_default (js_or (opt_message options Kemail)
                                      typeMessage)
                               defaultMessages.email))
    else Ready (ok v)).

Definition url (typeMessage : option String.string) : BaseSchema :=
  new_BaseSchema (fun v options =>
    if not_string_or (fun s => negb (test url_regex s)) v then
      Ready (fail1 (or_default (js_or (opt_message options Kurl)
                                      typeMessage)
                               defaultMessages.url))
    else Ready (ok v)).
End Engine.

Definition minLength (length : Z) (message : option String.string)
  : BaseSchema :=
  new_BaseSchema (fun v options =>
    if not_string_or (fun s => Z.of_nat (String.length s) <? length)%Z v then
      Ready (fail1 (or_default
                      (js_or message (opt_message options KminLength))
                      (String_replace "{min}" (String_of_number length)
                                      defaultMessages.minLength)))
    else Ready (ok v)).

Definition maxLength (length : Z) (message : option String.string)
  : BaseSchema :=
  new_BaseSchema (fun v options =>
    if not_string_or (fun s => Z.of_nat (String.length s) >? length)%Z v then
      Ready (fail1 (or_default
                      (js_or message (opt_message options KmaxLength))
                      (String_replace "{max}" (String_of_number length)
                                      defaultMessages.maxLength)))
    else Ready (ok v)).

Definition pattern (regex : RegExp) (message : option String.string)
  : BaseSchema :=
  new_BaseSchema (fun v options =>
    if not_string_or (fun s => negb (test regex s)) v then
      Ready (fail1 (or_default (js_or message (opt_message options Kpattern))
                               defaultMessages.pattern))
    else Ready (ok v)).

Definition array (schema : BaseSchema) (typeMessage : option String.string)
  : BaseSchema :=
  new_BaseSchema (fun v options =>
    match v with
    | VArr items =>
        let (errors, result) :=
          forEach (array_step schema options) items 0 ([], []) in
        if (0 <? List.length errors)%nat then Ready (fail errors)
        else Ready (ok (VArr result))
    | _ =>
        Ready (fail1 (or_default (js_or (opt_message options Ktype)
                                        typeMessage)
                                 defaultMessages.array))
    end).

Definition object (shape : list (String.string * BaseSchema))
  (typeMessage : option String.string) : BaseSchema :=
  ObjectValidator shape typeMessage.

Definition union (schemas : list BaseSchema)
  (message : option String.string) : BaseSchema :=
  UnionValidator schemas message.

End Validate.

(** ** Histories of modifier calls

    [required] and [nullable] write to the receiver and return it, so a chain
    of calls on one schema object is a sequence of updates of one state. *)

Inductive modifier : Type :=
| Mrequired (message : option string)
| Mnullable (message : option string).

Definition apply_modifier (this : BaseSchema) (m : modifier) : BaseSchema :=
  match m with
  | Mrequired message => required this message
  | Mnullable message => nullable this message
  end.

Definition apply_modifiers (this : BaseSchema) (calls : list modifier)
  : BaseSchema :=
  fold_left apply_modifier calls this.

(** ** Schemas built from the builder surface

    [Built s]: [s] is the state of a schema object obtained from the builder
    functions and the schema methods, every custom predicate being
    synchronous.  The host's date parser and the two regular expression
    literals are arbitrary. *)

Inductive Built : BaseSchema -> Prop :=
| Built_string : forall tm, Built (Validate.string tm)
| Built_number : forall tm, Built (Validate.number tm)
| Built_boolean : forall tm, Built (Validate.boolean tm)
| Built_date : forall parse tm im, Built (Validate.date parse tm im)
| Built_email : forall re tm, Built (Validate.email re tm)
| Built_url : forall re tm, Built (Validate.url re tm)
| Built_minLength : forall n m, Built (Validate.minLength n m)
| Built_maxLength : forall n m, Built (Validate.maxLength n m)
| Built_pattern : forall re m, Built (Validate.pattern re m)
| Built_array : forall s tm, Built s -> Built (Validate.array s tm)
| Built_object : forall shape tm,
    BuiltShape shape -> Built (Validate.object shape tm)
| Built_union : forall schemas m,
    BuiltList schemas -> Built (Validate.union schemas m)
| Built_required : forall s m, Built s -> Built (required s m)
| Built_nullable : forall s m, Built s -> Built (nullable s m)
| Built_custom : forall s (p : value -> bool) m,
    Built s -> Built (custom s (fun v => Sync (p v)) m)
with BuiltShape : list (string * BaseSchema) -> Prop :=
| BuiltShape_nil : BuiltShape []
| BuiltShape_cons : forall key s shape,
    Built s -> BuiltShape shape -> BuiltShape ((key, s) :: shape)
with BuiltList : list BaseSchema -> Prop :=
| BuiltList_nil : BuiltList []
| BuiltList_cons : forall s schemas,
    Built s -> BuiltList schemas -> BuiltList (s :: schemas).

Scheme Built_mut := Minimality for Built Sort Prop
  with BuiltShape_mut := Minimality for BuiltShape Sort Prop
  with BuiltList_mut := Minimality for BuiltList Sort Prop.

(** ** Properties in the words of the specification *)

(** The invariant of [ValidationResult]: on success the [value] property is
    there and [errors] is not; on failure [errors] is a non-empty list and
    [value] is not there. *)
Definition result_invariant (r : ValidationResult) : Prop :=
  (success r = true -> value_ r <> None /\ errors r = None) /\
  (success r = false ->
     (exists e es, errors r = Some (e :: es)) /\ value_ r = None).

(** [validate] of [s] always hands back a result object, and one that
    satisfies the invariant. *)
Definition Sound (s : BaseSchema) : Prop :=
  forall v o, exists r, validate s v o = Ready r /\ result_invariant r.

(** A message chosen in priority order: the first candidate that is defined
    and not empty, else the default. *)
Fixpoint priority (candidates : list (option string)) (default : string)
  : string :=
  match candidates with
  | [] => default
  | Some s :: rest => if String.eqb s "" then priority rest default else s
  | None :: rest => priority rest default
  end.

(** Items paired with their indices, in index order. *)
Definition indexed (items : list value) : list (nat * value) :=
  combine (seq 0 (List.length items)) items.

(** The errors an array reports: for each item in index order that does not
    read as successful, its errors with the index put in front of the path. *)
Definition array_errors (schema : BaseSchema)
  (options : option ValidationOptions) (items : list value)
  : list ValidationError :=
  flat_map (fun '(index, item) =>
              let r := validate schema item options in
              if get_success r then []
              else relabel (index_toString index) (get_errors r))
           (indexed items).

(** The values an array collects: those of the successful items, in order. *)
Definition array_values (schema : BaseSchema)
  (options : option ValidationOptions) (items : list value) : list value :=
  flat_map (fun item =>
              let r := validate schema item options in
              if get_success r then [get_value r] else [])
           items.

(** The errors of all branches of a union, in branch order, as they are. *)
Definition branch_errors (schemas : list BaseSchema) (v : value)
  (options : option ValidationOptions) : list ValidationError :=
  flat_map
    (fun schema => errors_or_nil (get_errors (validate schema v options)))
    schemas.

(** ** Schemas and inputs of the scenarios *)

(** [object({ name: string().required(), age: number() })] *)
Definition person : BaseSchema :=
  Validate.object
    [("name", required (Validate.string None) None);
     ("age", Validate.number None)]
    None.

(** [{ messages: { type: 'type at call', minLength: 'at call' } }] *)
Definition at_call : option ValidationOptions :=
  Some (mkOptions (Some (mkMessages None (Some "type at call") None None None
                                    None (Some "at call") None None))).

(** A message given at construction, and a regular expression that matches
    nothing. *)
Definition at_construction : option string := Some "at construction".

Definition never_matches : RegExp := mkRegExp (fun _ => false).

(** A custom leaf whose predicate answers with a promise. *)
Definition deferred_leaf (this : BaseSchema) (settles : value -> promise bool)
  (message : option string) : BaseSchema :=
  custom this (fun v => Async (settles v)) message.

(** ** Further descriptions of what the composers compute *)

(** The test that lets an input into the field loop of [ObjectValidator]:
    [typeof value === 'object' && value !== null]. *)
Definition is_object_input (v : value) : bool :=
  jstype_eqb (typeof v) TObject && negb (is_null v).

(** The errors an object reports: for each declared field in order that does
    not read as successful, its errors with the key put in front of the
    path. *)
Definition object_errors (shape : list (string * BaseSchema)) (v : value)
  (options : option ValidationOptions) : list ValidationError :=
  flat_map (fun '(key, schema) =>
              let r := validate schema (get_prop v key) options in
              if get_success r then []
              else relabel key (get_errors r))
           shape.

(** The record an object assembles from [result]: the values of the
    successful fields, assigned in order. *)
Definition record_step (v : value) (options : option ValidationOptions)
  (result : list (string * value)) (entry : string * BaseSchema)
  : list (string * value) :=
  let r := validate (snd entry) (get_prop v (fst entry)) options in
  if get_success r then assoc_set result (fst entry) (get_value r)
  else result.

Definition object_record (shape : list (string * BaseSchema)) (v : value)
  (options : option ValidationOptions) : list (string * value) :=
  fold_left (record_step v options) shape [].

(** The names a plain object inherits from the host's [Object.prototype].
    On an object without an own property of such a name, the code's read
    [value[key]] finds the inherited member, and its assignment
    [result["__proto__"] = x] creates no own property; [get_prop] and
    [assoc_set] describe the code for the other keys. *)
Definition Object_prototype_names : list string :=
  ["constructor"; "__defineGetter__"; "__defineSetter__"; "hasOwnProperty";
   "__lookupGetter__"; "__lookupSetter__"; "isPrototypeOf";
   "propertyIsEnumerable"; "toString"; "valueOf"; "__proto__";
   "toLocaleString"].

Definition own_key (key : string) : bool :=
  negb (existsb (String.eqb key) Object_prototype_names).

(** No key of the shape is an inherited name. *)
Definition own_keys (shape : list (string * BaseSchema)) : bool :=
  forallb (fun entry => own_key (fst entry)) shape.


(** The property a successful field contributes to the record. *)
Definition field_entry (v : value) (options : option ValidationOptions)
  (entry : string * BaseSchema) : string * value :=
  (fst entry,
   get_value (validate (snd entry) (get_prop v (fst entry)) options)).

(** The first segment of the path of an error, if any. *)
Definition path_head (e : ValidationError) : option string :=
  hd_error (path e).

(** Whether some branch of a union reads as successful. *)
Definition some_branch_succeeds (schemas : list BaseSchema) (v : value)
  (options : option ValidationOptions) : bool :=
  existsb (fun schema => get_success (validate schema v options)) schemas.

(** [call] is a call of [nullable]. *)
Definition is_nullable_call (call : modifier) : bool :=
  match call with
  | Mnullable _ => true
  | Mrequired _ => false
  end.

(** ** Two families of built schemas *)

(** [Plain s]: a built schema with synchronous custom predicates in which
    none of [date], [array] and [object] occurs. *)
Inductive Plain : BaseSchema -> Prop :=
| Plain_string : forall tm, Plain (Validate.string tm)
| Plain_number : forall tm, Plain (Validate.number tm)
| Plain_boolean : forall tm, Plain (Validate.boolean tm)
| Plain_email : forall re tm, Plain (Validate.email re tm)
| Plain_url : forall re tm, Plain (Validate.url re tm)
| Plain_minLength : forall n m, Plain (Validate.minLength n m)
| Plain_maxLength : forall n m, Plain (Validate.maxLength n m)
| Plain_pattern : forall re m, Plain (Validate.pattern re m)
| Plain_union : forall schemas m,
    PlainList schemas -> Plain (Validate.union schemas m)
| Plain_required : forall s m, Plain s -> Plain (required s m)
| Plain_nullable : forall s m, Plain s -> Plain (nullable s m)
| Plain_custom : forall s (p : value -> bool) m,
    Plain s -> Plain (custom s (fun v => Sync (p v)) m)
with PlainList : list BaseSchema -> Prop :=
| PlainList_nil : PlainList []
| PlainList_cons : forall s schemas,
    Plain s -> PlainList schemas -> PlainList (s :: schemas).

Scheme Plain_mut := Minimality for Plain Sort Prop
  with PlainList_mut := Minimality for PlainList Sort Prop.

(** [CustomFree s]: a built schema in which [custom] does not occur. *)
Inductive CustomFree : BaseSchema -> Prop :=
| CustomFree_string : forall tm, CustomFree (Validate.string tm)
| CustomFree_number : forall tm, CustomFree (Validate.number tm)
| CustomFree_boolean : forall tm, CustomFree (Validate.boolean tm)
| CustomFree_date : forall parse tm im, CustomFree (Validate.date parse tm im)
| CustomFree_email : forall re tm, CustomFree (Validate.email re tm)
| CustomFree_url : forall re tm, CustomFree (Validate.url re tm)
| CustomFree_minLength : forall n m, CustomFree (Validate.minLength n m)
| CustomFree_maxLength : forall n m, CustomFree (Validate.maxLength n m)
| CustomFree_pattern : forall re m, CustomFree (Validate.pattern re m)
| CustomFree_array : forall s tm,
    CustomFree s -> CustomFree (Validate.array s tm)
| CustomFree_object : forall shape tm,
    CustomFreeShape shape -> CustomFree (Validate.object shape tm)
| CustomFree_union : forall schemas m,
    CustomFreeList schemas -> CustomFree (Validate.union schemas m)
| CustomFree_required : forall s m, CustomFree s -> CustomFree (required s m)
| CustomFree_nullable : forall s m, CustomFree s -> CustomFree (nullable s m)
with CustomFreeShape : list (string * BaseSchema) -> Prop :=
| CustomFreeShape_nil : CustomFreeShape []
| CustomFreeShape_cons : forall key s shape,
    CustomFree s -> CustomFreeShape shape ->
    CustomFreeShape ((key, s) :: shape)
with CustomFreeList : list BaseSchema -> Prop :=
| CustomFreeList_nil : CustomFreeList []
| CustomFreeList_cons : forall s schemas,
    CustomFree s -> CustomFreeList schemas -> CustomFreeList (s :: schemas).

Scheme CustomFree_mut := Minimality for CustomFree Sort Prop
  with CustomFreeShape_mut := Minimality for CustomFreeShape Sort Prop
  with CustomFreeList_mut := Minimality for CustomFreeList Sort Prop.

(** ** Scenarios of the specification, evaluated *)

Example minLength_ab :
  validate (Validate.minLength 3 None) (VStr "ab") None
  = Ready (fail1 "Value must have at least 3 characters").
Proof. reflexivity. Qed.

Example union_true :
  validate (Validate.union [Validate.string None; Validate.number None] None)
           (VBool true) None
  = Ready (fail [mkError [] "Value does not match any schema in the union";
                 mkError [] "Value must be a string";
                 mkError [] "Value must be a number"]).
Proof. reflexivity. Qed.

Example union_first_match :
  validate (Validate.union [Validate.string None; Validate.number None] None)
           (VStr "5") None
  = Ready (ok (VStr "5")).
Proof. reflexivity. Qed.

(** ** The modifier layer *)

Lemma or_default_priority1 (a : option string) (d : string) :
  or_default a d = priority [a] d.
Proof. destruct a as [s|]; reflexivity. Qed.

Lemma or_default_priority2 (a b : option string) (d : string) :
  or_default (js_or a b) d = priority [a; b] d.
Proof.
  unfold js_or, truthy. destruct a as [s|]; simpl; [|destruct b; reflexivity].
  destruct (String.eqb s "") eqn:E; simpl; [destruct b; reflexivity|].
  now rewrite E.
Qed.

Lemma validator_apply_modifiers (calls : list modifier) (s : BaseSchema) :
  validator (apply_modifiers s calls) = validator s.
Proof.
  revert s. induction calls as [|m calls IH]; intro s; [reflexivity|].
  unfold apply_modifiers in *. simpl. rewrite IH. now destruct m.
Qed.

(** Past the null and undefined gates [validate] is the validator closure. *)
Lemma validate_past_gate (s : BaseSchema) (v : value)
  (o : option ValidationOptions) :
  is_null v = false ->
  is_undefined v && isRequired s = false ->
  validate s v o = validator s v o.
Proof. intros Hn Hu. unfold validate. now rewrite Hn, Hu. Qed.

Lemma validate_defined (s : BaseSchema) (v : value)
  (o : option ValidationOptions) :
  is_null v = false -> is_undefined v = false ->
  validate s v o = validator s v o.
Proof. intros Hn Hu. apply validate_past_gate; [assumption|now rewrite Hu]. Qed.

Lemma isNullable_apply_modifiers (calls : list modifier) (s : BaseSchema) :
  isNullable s = true -> isNullable (apply_modifiers s calls) = true.
Proof.
  revert s. induction calls as [|m calls IH]; intros s H; [exact H|].
  unfold apply_modifiers in *. simpl. apply IH. now destruct m.
Qed.

Lemma isNullable_after_call (calls : list modifier) (message : option string) :
  forall s, In (Mnullable message) calls ->
            isNullable (apply_modifiers s calls) = true.
Proof.
  induction calls as [|m calls IH]; intros s Hin; [contradiction|].
  destruct Hin as [->|Hin].
  - apply (isNullable_apply_modifiers calls (nullable s message)). reflexivity.
  - apply (IH (apply_modifier s m) Hin).
Qed.

(** ** The union loop *)

Lemma union_loop_all_fail (message : option string) (schemas : list BaseSchema)
  (v : value) (o : option ValidationOptions) :
  (forall s, In s schemas -> get_success (validate s v o) = false) ->
  forall acc,
    union_loop message schemas v o acc
    = Ready (fail (mkError [] (or_default message defaultMessages.union)
                     :: acc ++ branch_errors schemas v o)).
Proof.
  induction schemas as [|s schemas IH]; intros Hfail acc; simpl.
  - now rewrite app_nil_r.
  - rewrite (Hfail s (or_introl eq_refl)).
    rewrite IH by (intros s' Hs'; apply Hfail; now right).
    unfold branch_errors. simpl. now rewrite app_assoc.
Qed.

(** A branch that does not read as successful and carries no error list, or
    an empty one, leaves no trace in the loop. *)
Lemma union_loop_skip (message : option string) (s : BaseSchema)
  (v : value) (o : option ValidationOptions) :
  get_success (validate s v o) = false ->
  errors_or_nil (get_errors (validate s v o)) = [] ->
  forall pre post acc,
    union_loop message (pre ++ s :: post) v o acc
    = union_loop message (pre ++ post) v o acc.
Proof.
  intros Hs He pre. induction pre as [|b pre IH]; intros post acc; simpl.
  - now rewrite Hs, He, app_nil_r.
  - destruct (get_success (validate b v o)); [reflexivity|apply IH].
Qed.

(** ** The claims *)

(** C5.  [object({ name: string().required(), age: number() })] applied to
    [{ age: 30 }] fails with exactly one error, of path [["name"]] and
    message "Value is required": the absent property reads as undefined, the
    required gate of the leaf reports it with an empty path, and the object
    loop puts the key in front. *)
Theorem person_without_name :
  get_prop (VObj [("age", VNum 30)]) "name" = VUndefined /\
  validate (required (Validate.string None) None) VUndefined None
  = Ready (fail [mkError [] "Value is required"]) /\
  validate person (VObj [("age", VNum 30)]) None
  = Ready (mkResult false None (Some [mkError ["name"] "Value is required"])).
Proof. repeat split. Qed.

(** C6.  Once [nullable()] has been called on a schema object, whatever its
    validator closure is (type predicate or custom check) and whatever other
    modifier calls came before or after, among them [required()],
    [validate(null, options)] succeeds with the value [null]. *)
Theorem nullable_dominates (s : BaseSchema) (calls : list modifier)
  (message : option string) (o : option ValidationOptions) :
  In (Mnullable message) calls ->
  validate (apply_modifiers s calls) VNull o = Ready (ok VNull).
Proof.
  intro Hin. unfold validate. simpl.
  now rewrite (isNullable_after_call calls message s Hin).
Qed.

Lemma nullable_dominates_witness :
  In (Mnullable None) [Mrequired None; Mnullable None; Mrequired (Some "needed")]
  /\ validate (apply_modifiers
                 (custom (Validate.string None) (fun _ => Sync false) None)
                 [Mrequired None; Mnullable None; Mrequired (Some "needed")])
              VNull None
     = Ready (ok VNull).
Proof.
  split.
  - right. left. reflexivity.
  - apply (nullable_dominates _ _ None). right. left. reflexivity.
Defined.

(** C1, as the code has it.  [s.custom(p, m)] is a fresh schema whose
    validator runs [p] alone: it is the same schema whatever the receiver [s]
    is, and on a non-null input [v] its [validate] succeeds with [v] when
    [p v] is true and fails with the single custom error (empty path, message
    [m], else [options.messages.custom], else "Invalid value") when [p v] is
    false. *)
Theorem custom_runs_predicate_only (s : BaseSchema) (p : value -> bool)
  (m : option string) (v : value) (o : option ValidationOptions) :
  is_null v = false ->
  validate (custom s (fun x => Sync (p x)) m) v o
  = Ready (if p v then ok v
           else fail [mkError [] (priority [m; opt_message o Kcustom]
                                           "Invalid value")])
  /\ forall s', custom s' (fun x => Sync (p x)) m
                = custom s (fun x => Sync (p x)) m.
Proof.
  intro Hn. split; [|reflexivity].
  rewrite validate_past_gate by (assumption || (simpl; apply andb_false_r)).
  simpl. unfold custom_result. rewrite or_default_priority2.
  now destruct (p v).
Qed.

Lemma custom_runs_predicate_only_witness :
  is_null (VNum 42) = false /\
  validate (custom (Validate.string None)
                   (fun x => Sync (match x with VNum _ => true | _ => false end))
                   None)
           (VNum 42) None
  = Ready (ok (VNum 42)).
Proof.
  split; [reflexivity|].
  apply (custom_runs_predicate_only (Validate.string None)
           (fun x => match x with VNum _ => true | _ => false end)
           None (VNum 42) None).
  reflexivity.
Defined.

(** C1 as stated fails: [string()] rejects 42, yet [string().custom(p)] with a
    predicate that holds accepts it instead of returning that failure. *)
Lemma custom_discards_receiver :
  validate (Validate.string None) (VNum 42) None
  = Ready (fail [mkError [] "Value must be a string"]) /\
  validate (custom (Validate.string None) (fun _ => Sync true) None)
           (VNum 42) None
  = Ready (ok (VNum 42)) /\
  validate (custom (Validate.string None) (fun _ => Sync true) None)
           (VNum 42) None
  <> validate (Validate.string None) (VNum 42) None.
Proof. repeat split. discriminate. Qed.

(** C10, as the code has it.  A union built from the empty branch list,
    applied to an input that is neither null nor undefined, fails under any
    options with exactly one error of empty path.  Its message is the message
    given at construction when that is a non-empty string, and the default
    union message otherwise. *)
Theorem empty_union_fails (message : option string) (calls : list modifier)
  (v : value) (o : option ValidationOptions) :
  is_null v = false ->
  is_undefined v = false ->
  validate (apply_modifiers (Validate.union [] message) calls) v o
  = Ready (mkResult false None
             (Some [mkError []
                      (priority [message]
                         "Value does not match any schema in the union")])).
Proof.
  intros Hn Hu. rewrite validate_defined by assumption.
  rewrite validator_apply_modifiers. simpl.
  now rewrite or_default_priority1.
Qed.

Lemma empty_union_fails_witness :
  is_null (VNum 7) = false /\
  is_undefined (VNum 7) = false /\
  validate (apply_modifiers (Validate.union [] None) [Mrequired None])
           (VNum 7) at_call
  = Ready (mkResult false None
             (Some [mkError [] "Value does not match any schema in the union"])).
Proof.
  split; [reflexivity|]. split; [reflexivity|].
  apply (empty_union_fails None [Mrequired None] (VNum 7)
           at_call); reflexivity.
Defined.

(** C10 as stated fails: a union built from the empty branch list with a
    message of its own reports that message, not the default one. *)
Lemma empty_union_with_own_message :
  is_null (VNum 7) = false /\
  is_undefined (VNum 7) = false /\
  validate (Validate.union [] (Some "mine")) (VNum 7) None
  = Ready (fail [mkError [] "mine"]) /\
  validate (Validate.union [] (Some "mine")) (VNum 7) None
  <> Ready (fail [mkError []
                    "Value does not match any schema in the union"]).
Proof. repeat split. discriminate. Qed.

(** C4, as the code has it.  On an input that passes the modifier layer of the
    union (not null, and not undefined on a union marked required) and on
    which no branch reads as successful, [validate] fails with the union's own
    error (empty path; message given at construction, else the default)
    followed by the errors of every branch in declaration order, paths
    untouched. *)
Theorem union_all_branches_fail (schemas : list BaseSchema)
  (message : option string) (calls : list modifier) (v : value)
  (o : option ValidationOptions) :
  is_null v = false ->
  is_undefined v
  && isRequired (apply_modifiers (Validate.union schemas message) calls)
  = false ->
  (forall s, In s schemas -> get_success (validate s v o) = false) ->
  validate (apply_modifiers (Validate.union schemas message) calls) v o
  = Ready (fail (mkError [] (priority [message] defaultMessages.union)
                   :: branch_errors schemas v o)).
Proof.
  intros Hn Hu Hfail. rewrite validate_past_gate by assumption.
  rewrite validator_apply_modifiers. simpl.
  rewrite union_loop_all_fail by assumption.
  now rewrite or_default_priority1.
Qed.

Lemma union_all_branches_fail_witness :
  is_null (VBool true) = false /\
  validate (apply_modifiers
              (Validate.union [Validate.string None; Validate.number None] None)
              [])
           (VBool true) None
  = Ready (fail [mkError [] "Value does not match any schema in the union";
                 mkError [] "Value must be a string";
                 mkError [] "Value must be a number"]).
Proof.
  split; [reflexivity|].
  apply (union_all_branches_fail
           [Validate.string None; Validate.number None] None [] (VBool true)
           None (eq_refl false)).
  - reflexivity.
  - intros s [<-|[<-|[]]]; reflexivity.
Defined.

(** C4 as stated fails on null: the only branch of [union([string()])] fails
    on null, yet the union reports the single nullable error of its own
    modifier layer, not its no-match error followed by the branch's error. *)
Lemma union_on_null :
  get_success (validate (Validate.string None) VNull None) = false /\
  validate (Validate.union [Validate.string None] None) VNull None
  = Ready (fail [mkError [] "Value cannot be null"]) /\
  validate (Validate.union [Validate.string None] None) VNull None
  <> Ready (fail (mkError [] "Value does not match any schema in the union"
                    :: branch_errors [Validate.string None] VNull None)).
Proof. repeat split. discriminate. Qed.

(** C3, as the code has it.  On an input whose [typeof] is not ['object'] (a
    boolean, a number, a string, or undefined on a schema not marked
    required) an object schema fails at once with exactly one error of empty
    path whose message is the type-mismatch text: [options.messages.type],
    else the message given at construction, else "Value must be an object".
    A null input is settled by the modifier layer before the shape test:
    success with null on a nullable schema, the single nullable error
    otherwise. *)
Theorem object_rejects_non_objects (shape : list (string * BaseSchema))
  (tm : option string) (calls : list modifier) (v : value)
  (o : option ValidationOptions) :
  (jstype_eqb (typeof v) TObject = false ->
   is_undefined v
   && isRequired (apply_modifiers (Validate.object shape tm) calls) = false ->
   validate (apply_modifiers (Validate.object shape tm) calls) v o
   = Ready (mkResult false None
              (Some [mkError [] (priority [opt_message o Ktype; tm]
                                          "Value must be an object")])))
  /\
  validate (apply_modifiers (Validate.object shape tm) calls) VNull o
  = (if isNullable (apply_modifiers (Validate.object shape tm) calls)
     then Ready (ok VNull)
     else Ready (mkResult false None
                   (Some [mkError []
                            (priority
                               [opt_message o Knullable;
                                nullableMessage
                                  (apply_modifiers (Validate.object shape tm)
                                                   calls)]
                               "Value cannot be null")]))).
Proof.
  split.
  - intros Ht Hu.
    assert (Hn : is_null v = false) by (destruct v; simpl in *; congruence).
    rewrite validate_past_gate by assumption.
    rewrite validator_apply_modifiers. simpl. rewrite Ht. simpl.
    now rewrite or_default_priority2.
  - unfold validate. simpl.
    destruct (isNullable _); [reflexivity|].
    now rewrite or_default_priority2.
Qed.

Lemma object_rejects_non_objects_witness :
  jstype_eqb (typeof (VStr "Ada")) TObject = false /\
  validate (apply_modifiers person []) (VStr "Ada") None
  = Ready (mkResult false None
             (Some [mkError [] "Value must be an object"])).
Proof.
  split; [reflexivity|].
  apply (object_rejects_non_objects
           [("name", required (Validate.string None) None);
            ("age", Validate.number None)] None [] (VStr "Ada") None);
    reflexivity.
Defined.

(** C3 as stated fails on both inputs it names: null is answered by the
    nullable gate with its own message, and an array passes the shape test
    and is validated field by field. *)
Lemma object_on_null_and_array :
  validate (Validate.object [] None) VNull None
  = Ready (fail [mkError [] "Value cannot be null"]) /\
  validate (Validate.object [] None) VNull None
  <> Ready (fail [mkError [] "Value must be an object"]) /\
  validate (Validate.object [] None) (VArr []) None = Ready (ok (VObj [])).
Proof. repeat split. discriminate. Qed.

(** ** The array loop *)

Lemma forEach_array_step (schema : BaseSchema) (o : option ValidationOptions)
  (items : list value) :
  forall (i : nat) (errs : list ValidationError) (vals : list value),
    forEach (array_step schema o) items i (errs, vals)
    = (errs ++ flat_map (fun '(index, item) =>
                           let r := validate schema item o in
                           if get_success r then []
                           else relabel (index_toString index) (get_errors r))
                        (combine (seq i (List.length items)) items),
       vals ++ array_values schema o items).
Proof.
  induction items as [|item rest IH]; intros i errs vals; simpl.
  - now rewrite !app_nil_r.
  - unfold array_step at 2, array_values. simpl.
    destruct (get_success (validate schema item o)); simpl; rewrite IH.
    + unfold array_values. now rewrite <- app_assoc.
    + unfold array_values. now rewrite <- app_assoc.
Qed.

Lemma nonempty_length {A : Type} (l : list A) :
  (0 <? List.length l)%nat = match l with [] => false | _ => true end.
Proof. now destruct l. Qed.

(** C7.  An array schema validates the items in index order and collects
    from all of them: the reported errors are, item after item, those of each
    item that does not read as successful, with the decimal index put in front
    of every path; with none to report it succeeds with the values of the
    items.  In particular [array(number())] applied to [[1, "x", 3]] fails
    with exactly one error, of path [["1"]]. *)
Theorem array_collects_in_index_order (schema : BaseSchema)
  (tm : option string) (calls : list modifier) (items : list value)
  (o : option ValidationOptions) :
  validate (apply_modifiers (Validate.array schema tm) calls) (VArr items) o
  = match array_errors schema o items with
    | [] => Ready (ok (VArr (array_values schema o items)))
    | errs => Ready (fail errs)
    end
  /\
  validate (Validate.array (Validate.number None) None)
           (VArr [VNum 1; VStr "x"; VNum 3]) None
  = Ready (mkResult false None
             (Some [mkError ["1"] "Value must be a number"])).
Proof.
  split; [|reflexivity].
  rewrite validate_defined by reflexivity.
  rewrite validator_apply_modifiers. simpl.
  rewrite forEach_array_step. simpl. rewrite nonempty_length.
  unfold array_errors, indexed.
  now destruct (flat_map _ (combine _ items)).
Qed.

(** ** The invariant of results *)

Lemma invariant_ok (v : value) : result_invariant (ok v).
Proof. split; simpl; intro H; [split; congruence|discriminate]. Qed.

Lemma invariant_fail (e : ValidationError) (es : list ValidationError) :
  result_invariant (fail (e :: es)).
Proof. split; simpl; intro H; [discriminate|split; eauto]. Qed.

Lemma invariant_fail_nonempty (errs : list ValidationError) :
  (0 <? List.length errs)%nat = true -> result_invariant (fail errs).
Proof. destruct errs; [discriminate|intros _; apply invariant_fail]. Qed.

Lemma invariant_fail1 (msg : string) : result_invariant (fail1 msg).
Proof. apply invariant_fail. Qed.

Create HintDb inv.
#[local] Hint Resolve invariant_ok invariant_fail invariant_fail1 : inv.

Ltac ready :=
  eexists; split; [reflexivity|solve [auto with inv]].

(** It is enough that the validator closure is sound on the inputs that get
    past the null gate. *)
Lemma Sound_of_validator (s : BaseSchema) :
  (forall v o, is_null v = false ->
               exists r, validator s v o = Ready r /\ result_invariant r) ->
  Sound s.
Proof.
  intros H v o. unfold validate.
  destruct (is_null v) eqn:Hn.
  - destruct (isNullable s); ready.
  - destruct (is_undefined v && isRequired s); [ready|now apply H].
Qed.

Ltac leaf :=
  apply Sound_of_validator; intros v o _; simpl;
  repeat match goal with
         | |- context [if ?b then _ else _] => destruct b
         end;
  ready.

Lemma Sound_required (s : BaseSchema) (m : option string) :
  Sound s -> Sound (required s m).
Proof.
  intros H v o. specialize (H v o). unfold validate in *. simpl.
  destruct (is_null v); [exact H|].
  destruct (is_undefined v); simpl in *; [ready|exact H].
Qed.

Lemma Sound_nullable (s : BaseSchema) (m : option string) :
  Sound s -> Sound (nullable s m).
Proof.
  intros H v o. specialize (H v o). unfold validate in *. simpl.
  destruct (is_null v); [ready|exact H].
Qed.

Lemma Sound_array (s : BaseSchema) (tm : option string) :
  Sound (Validate.array s tm).
Proof.
  apply Sound_of_validator. intros v o _. simpl.
  destruct v; try ready.
  destruct (forEach _ _ _ _) as [errs vals].
  destruct (0 <? List.length errs)%nat eqn:E; [|ready].
  eexists; split; [reflexivity|now apply invariant_fail_nonempty].
Qed.

Lemma Sound_object (shape : list (string * BaseSchema)) (tm : option string) :
  Sound (Validate.object shape tm).
Proof.
  apply Sound_of_validator. intros v o _. simpl.
  destruct (negb (jstype_eqb (typeof v) TObject) || is_null v); [ready|].
  destruct (fold_left _ _ _) as [errs result].
  destruct (0 <? List.length errs)%nat eqn:E; [|ready].
  eexists; split; [reflexivity|now apply invariant_fail_nonempty].
Qed.

Lemma union_loop_sound (message : option string) (schemas : list BaseSchema)
  (v : value) (o : option ValidationOptions) :
  Forall Sound schemas ->
  forall acc, exists r,
    union_loop message schemas v o acc = Ready r /\ result_invariant r.
Proof.
  induction 1 as [|s schemas Hs _ IH]; intro acc; simpl; [ready|].
  destruct (get_success (validate s v o)) eqn:E; [apply Hs|apply IH].
Qed.

Lemma Sound_union (schemas : list BaseSchema) (m : option string) :
  Forall Sound schemas -> Sound (Validate.union schemas m).
Proof.
  intro H. apply Sound_of_validator. intros v o _. simpl.
  now apply union_loop_sound.
Qed.

Lemma Sound_custom (s : BaseSchema) (p : value -> bool) (m : option string) :
  Sound (custom s (fun v => Sync (p v)) m).
Proof.
  apply Sound_of_validator. intros v o _. simpl. unfold custom_result.
  destruct (p v); ready.
Qed.

(** C8.  For every schema built from the builder surface with synchronous
    custom predicates, every input and every options argument, [validate]
    returns a result object that satisfies the invariant: [success] true
    comes with a [value] property and no [errors]; [success] false comes with
    a non-empty [errors] list and no [value]. *)
Theorem built_results_satisfy_invariant (s : BaseSchema) :
  Built s ->
  forall (v : value) (o : option ValidationOptions),
  exists r : ValidationResult,
    validate s v o = Ready r /\
    (success r = true -> value_ r <> None /\ errors r = None) /\
    (success r = false ->
       (exists e es, errors r = Some (e :: es)) /\ value_ r = None).
Proof.
  intro HB. change (Sound s).
  induction HB using Built_mut
    with (P0 := fun shape => True) (P1 := fun schemas => Forall Sound schemas);
    try solve [leaf]; auto using Sound_array, Sound_object, Sound_union,
                                 Sound_required, Sound_nullable, Sound_custom.
Qed.

Lemma built_results_satisfy_invariant_witness :
  Built person /\
  exists r : ValidationResult,
    validate person (VObj [("age", VNum 30)]) None = Ready r /\
    (success r = true -> value_ r <> None /\ errors r = None) /\
    (success r = false ->
       (exists e es, errors r = Some (e :: es)) /\ value_ r = None).
Proof.
  assert (HB : Built person).
  { apply Built_object. apply BuiltShape_cons.
    - apply Built_required. apply Built_string.
    - apply BuiltShape_cons; [apply Built_number|apply BuiltShape_nil]. }
  split; [exact HB|].
  apply (built_results_satisfy_invariant HB (VObj [("age", VNum 30)]) None).
Defined.

(** ** Deferred outcomes under the composers *)

Lemma deferred_leaf_outcome (this : BaseSchema)
  (settles : value -> promise bool) (m : option string) (v : value)
  (o : option ValidationOptions) :
  is_null v = false ->
  validate (deferred_leaf this settles m) v o
  = Deferred (promise_then (settles v)
                (fun isValid => custom_result isValid v m o)).
Proof.
  intro Hn. unfold deferred_leaf.
  rewrite validate_past_gate by (assumption || (simpl; apply andb_false_r)).
  reflexivity.
Qed.

Lemma object_loop_skip (v : value) (o : option ValidationOptions)
  (key : string) (s : BaseSchema) :
  get_success (validate s (get_prop v key) o) = false ->
  get_errors (validate s (get_prop v key) o) = None ->
  forall pre post st,
    fold_left (object_step v o) (pre ++ (key, s) :: post) st
    = fold_left (object_step v o) (pre ++ post) st.
Proof.
  intros Hs He pre post st.
  assert (Hstep : forall st', object_step v o st' (key, s) = st').
  { intros [errs result]. unfold object_step. rewrite Hs, He. simpl.
    now rewrite app_nil_r. }
  rewrite !fold_left_app. cbn [fold_left]. now rewrite Hstep.
Qed.

Lemma forEach_all_deferred (this : BaseSchema)
  (settles : value -> promise bool) (m : option string)
  (o : option ValidationOptions) (items : list value) :
  Forall (fun item => is_null item = false) items ->
  forall i st,
    forEach (array_step (deferred_leaf this settles m) o) items i st = st.
Proof.
  induction 1 as [|item items Hn _ IH]; intros i st; simpl; [reflexivity|].
  rewrite IH. unfold array_step.
  rewrite deferred_leaf_outcome by assumption. simpl.
  rewrite app_nil_r. now destruct st.
Qed.

(** C9, as the code has it.  A custom leaf whose predicate answers with a
    promise hands the composer a promise where a result object is expected.
    The composer does not wait: reading [success] and [errors] on it yields
    undefined, so the child reads as a failure without errors, however the
    promise settles.  The object composer then adds neither an error nor a
    property for that field, the array composer neither an error nor an item,
    and the union composer goes on to the next branch. *)
Theorem deferred_child_reads_as_silent_failure (this : BaseSchema)
  (settles : value -> promise bool) (m : option string)
  (o : option ValidationOptions) :
  (forall v, is_null v = false ->
     get_success (validate (deferred_leaf this settles m) v o) = false /\
     get_errors (validate (deferred_leaf this settles m) v o) = None) /\
  (forall pre key post tm v, is_null (get_prop v key) = false ->
     validate (Validate.object
                 (pre ++ (key, deferred_leaf this settles m) :: post) tm) v o
     = validate (Validate.object (pre ++ post) tm) v o) /\
  (forall tm items, Forall (fun item => is_null item = false) items ->
     validate (Validate.array (deferred_leaf this settles m) tm) (VArr items) o
     = Ready (ok (VArr []))) /\
  (forall pre post message v, is_null v = false ->
     validate (Validate.union
                 (pre ++ deferred_leaf this settles m :: post) message) v o
     = validate (Validate.union (pre ++ post) message) v o).
Proof.
  repeat apply conj.
  - intros v Hn. now rewrite deferred_leaf_outcome.
  - intros pre key post tm v Hn. unfold validate. simpl.
    rewrite object_loop_skip; [reflexivity| |];
      now rewrite deferred_leaf_outcome.
  - intros tm items Hall. rewrite validate_defined by reflexivity. simpl.
    now rewrite forEach_all_deferred.
  - intros pre post message v Hn. unfold validate. simpl.
    rewrite union_loop_skip; [reflexivity| |];
      now rewrite deferred_leaf_outcome.
Qed.

Lemma deferred_child_reads_as_silent_failure_witness :
  is_null (get_prop (VObj [("a", VNum 1); ("b", VNum 2)]) "a") = false /\
  validate (Validate.object
              ([] ++ ("a", deferred_leaf (Validate.number None)
                             (fun _ => Fulfilled false) None)
                  :: [("b", Validate.number None)]) None)
           (VObj [("a", VNum 1); ("b", VNum 2)]) None
  = validate (Validate.object ([] ++ [("b", Validate.number None)]) None)
             (VObj [("a", VNum 1); ("b", VNum 2)]) None.
Proof.
  split; [reflexivity|].
  apply (proj1 (proj2 (deferred_child_reads_as_silent_failure
                         (Validate.number None) (fun _ => Fulfilled false)
                         None None))).
  reflexivity.
Defined.

(** C9 as stated fails: under a union, a deferred child whose predicate
    settles to true is not taken as a success, which would make the union
    return it as the first match; the union fails with its no-match error. *)
Lemma union_of_deferred_fails :
  validate (Validate.union
              [deferred_leaf (Validate.number None) (fun _ => Fulfilled true)
                             None] None)
           (VNum 1) None
  = Ready (fail [mkError [] "Value does not match any schema in the union"]) /\
  get_success
    (validate (Validate.union
                 [deferred_leaf (Validate.number None)
                                (fun _ => Fulfilled true) None] None)
              (VNum 1) None)
  = false.
Proof. split; reflexivity. Qed.

(** ** The choice of messages *)

(** C2, as the code has it.  The message of a reported error is the first
    candidate that is defined and not empty, the default coming last.
    - Nullable, required, type-mismatch (string, number, boolean, date, array,
      object), email and url errors: [options.messages[kind]], then the
      message given at construction.
    - Custom, minLength, maxLength and pattern errors: the message given at
      construction, then [options.messages[kind]].
    - Invalid-date and union errors, for which the options have no key: the
      message given at construction alone. *)
Theorem message_priority (o : option ValidationOptions)
  (ctor : option string) :
  (forall s, isNullable s = false ->
     validate s VNull o
     = Ready (fail1 (priority [opt_message o Knullable; nullableMessage s]
                              "Value cannot be null"))) /\
  (forall s,
     validate (required s ctor) VUndefined o
     = Ready (fail1 (priority [opt_message o Krequired; ctor]
                              "Value is required"))) /\
  (forall v, is_null v = false -> jstype_eqb (typeof v) TString = false ->
     validate (Validate.string ctor) v o
     = Ready (fail1 (priority [opt_message o Ktype; ctor]
                              "Value must be a string"))) /\
  (forall v, is_null v = false -> jstype_eqb (typeof v) TNumber = false ->
     validate (Validate.number ctor) v o
     = Ready (fail1 (priority [opt_message o Ktype; ctor]
                              "Value must be a number"))) /\
  (forall v, is_null v = false -> jstype_eqb (typeof v) TBoolean = false ->
     validate (Validate.boolean ctor) v o
     = Ready (fail1 (priority [opt_message o Ktype; ctor]
                              "Value must be a boolean"))) /\
  (forall parse im v, is_null v = false ->
     Validate.instanceof_Date v = false ->
     jstype_eqb (typeof v) TString = false ->
     validate (Validate.date parse ctor im) v o
     = Ready (fail1 (priority [opt_message o Ktype; ctor]
                              "Value must be a date or date string"))) /\
  (forall s v, is_null v = false -> Array_isArray v = false ->
     validate (Validate.array s ctor) v o
     = Ready (fail1 (priority [opt_message o Ktype; ctor]
                              "Value must be an array"))) /\
  (forall shape v, is_null v = false ->
     jstype_eqb (typeof v) TObject = false ->
     validate (Validate.object shape ctor) v o
     = Ready (fail1 (priority [opt_message o Ktype; ctor]
                              "Value must be an object"))) /\
  (forall re v, is_null v = false ->
     Validate.not_string_or (fun s => negb (test re s)) v = true ->
     validate (Validate.email re ctor) v o
     = Ready (fail1 (priority [opt_message o Kemail; ctor]
                              "Value must be a valid email address"))) /\
  (forall re v, is_null v = false ->
     Validate.not_string_or (fun s => negb (test re s)) v = true ->
     validate (Validate.url re ctor) v o
     = Ready (fail1 (priority [opt_message o Kurl; ctor]
                              "Value must be a valid URL"))) /\
  (forall s p v, is_null v = false -> p v = false ->
     validate (custom s (fun x => Sync (p x)) ctor) v o
     = Ready (fail1 (priority [ctor; opt_message o Kcustom]
                              "Invalid value"))) /\
  (forall n v, is_null v = false ->
     Validate.not_string_or
       (fun s => Z.of_nat (String.length s) <? n)%Z v = true ->
     validate (Validate.minLength n ctor) v o
     = Ready (fail1 (priority [ctor; opt_message o KminLength]
                       (String_replace "{min}" (String_of_number n)
                          "Value must have at least {min} characters")))) /\
  (forall n v, is_null v = false ->
     Validate.not_string_or
       (fun s => Z.of_nat (String.length s) >? n)%Z v = true ->
     validate (Validate.maxLength n ctor) v o
     = Ready (fail1 (priority [ctor; opt_message o KmaxLength]
                       (String_replace "{max}" (String_of_number n)
                          "Value must have at most {max} characters")))) /\
  (forall re v, is_null v = false ->
     Validate.not_string_or (fun s => negb (test re s)) v = true ->
     validate (Validate.pattern re ctor) v o
     = Ready (fail1 (priority [ctor; opt_message o Kpattern]
                       "Value does not match the required pattern"))) /\
  (forall parse tm s, parse s = None ->
     validate (Validate.date parse tm ctor) (VStr s) o
     = Ready (fail1 (priority [ctor] "Invalid date"))) /\
  (forall schemas v, is_null v = false ->
     (forall s, In s schemas -> get_success (validate s v o) = false) ->
     validate (Validate.union schemas ctor) v o
     = Ready (fail (mkError [] (priority [ctor]
                      "Value does not match any schema in the union")
                      :: branch_errors schemas v o))).
Proof.
  repeat apply conj.
  - intros s Hs. unfold validate. simpl. rewrite Hs.
    now rewrite or_default_priority2.
  - intros s. unfold validate. simpl. now rewrite or_default_priority2.
  - intros v Hn Ht. unfold validate. rewrite Hn, andb_false_r. simpl.
    rewrite Ht. simpl. now rewrite or_default_priority2.
  - intros v Hn Ht. unfold validate. rewrite Hn, andb_false_r. simpl.
    rewrite Ht. simpl. now rewrite or_default_priority2.
  - intros v Hn Ht. unfold validate. rewrite Hn, andb_false_r. simpl.
    rewrite Ht. simpl. now rewrite or_default_priority2.
  - intros parse im v Hn Hd Ht. unfold validate. rewrite Hn, andb_false_r.
    simpl. rewrite Hd, Ht. simpl. now rewrite or_default_priority2.
  - intros s v Hn Ha. unfold validate. rewrite Hn, andb_false_r. simpl.
    destruct v; try discriminate; now rewrite or_default_priority2.
  - intros shape v Hn Ht. unfold validate. rewrite Hn, andb_false_r. simpl.
    rewrite Ht. simpl. now rewrite or_default_priority2.
  - intros re v Hn Hb. unfold validate. rewrite Hn, andb_false_r. simpl.
    rewrite Hb. now rewrite or_default_priority2.
  - intros re v Hn Hb. unfold validate. rewrite Hn, andb_false_r. simpl.
    rewrite Hb. now rewrite or_default_priority2.
  - intros s p v Hn Hp. unfold validate. rewrite Hn, andb_false_r. simpl.
    rewrite Hp. unfold custom_result. now rewrite or_default_priority2.
  - intros n v Hn Hb. unfold validate. rewrite Hn, andb_false_r.
    cbn [validator Validate.minLength new_BaseSchema]. rewrite Hb.
    now rewrite or_default_priority2.
  - intros n v Hn Hb. unfold validate. rewrite Hn, andb_false_r.
    cbn [validator Validate.maxLength new_BaseSchema]. rewrite Hb.
    now rewrite or_default_priority2.
  - intros re v Hn Hb. unfold validate. rewrite Hn, andb_false_r. simpl.
    rewrite Hb. now rewrite or_default_priority2.
  - intros parse tm s Hp. unfold validate. simpl. rewrite Hp. simpl.
    now rewrite or_default_priority1.
  - intros schemas v Hn Hfail. unfold validate. rewrite Hn, andb_false_r.
    simpl. rewrite union_loop_all_fail by assumption.
    now rewrite or_default_priority1.
Qed.

Lemma message_priority_witness :
  validate (Validate.string None) VNull at_call
  = Ready (fail1 "Value cannot be null") /\
  validate (required (Validate.string None) at_construction) VUndefined
           at_call
  = Ready (fail1 "at construction") /\
  validate (Validate.string at_construction) (VNum 1) at_call
  = Ready (fail1 "type at call") /\
  validate (Validate.number at_construction) (VStr "x") at_call
  = Ready (fail1 "type at call") /\
  validate (Validate.boolean at_construction) (VStr "x") at_call
  = Ready (fail1 "type at call") /\
  validate (Validate.date (fun _ => None) at_construction None) (VNum 1)
           at_call
  = Ready (fail1 "type at call") /\
  validate (Validate.array (Validate.number None) at_construction) (VNum 1)
           at_call
  = Ready (fail1 "type at call") /\
  validate (Validate.object [] at_construction) (VNum 1) at_call
  = Ready (fail1 "type at call") /\
  validate (Validate.email never_matches at_construction) (VStr "x") at_call
  = Ready (fail1 "at construction") /\
  validate (Validate.url never_matches at_construction) (VStr "x") at_call
  = Ready (fail1 "at construction") /\
  validate (custom (Validate.string None) (fun _ => Sync false)
                   at_construction)
           (VStr "x") at_call
  = Ready (fail1 "at construction") /\
  validate (Validate.minLength 3 at_construction) (VStr "ab") at_call
  = Ready (fail1 "at construction") /\
  validate (Validate.maxLength 1 at_construction) (VStr "ab") at_call
  = Ready (fail1 "at construction") /\
  validate (Validate.pattern never_matches at_construction) (VStr "ab")
           at_call
  = Ready (fail1 "at construction") /\
  validate (Validate.date (fun _ => None) None at_construction)
           (VStr "soon") at_call
  = Ready (fail1 "at construction") /\
  validate (Validate.union [Validate.number None] at_construction)
           (VStr "x") at_call
  = Ready (fail [mkError [] "at construction";
                 mkError [] "type at call"]).
Proof.
  destruct (message_priority at_call at_construction)
    as (H1 & H2 & H3 & H4 & H5 & H6 & H7 & H8 & H9 & H10 & H11 & H12 & H13
        & H14 & H15 & H16).
  repeat apply conj.
  - apply (H1 (Validate.string None)). reflexivity.
  - apply (H2 (Validate.string None)).
  - apply (H3 (VNum 1)); reflexivity.
  - apply (H4 (VStr "x")); reflexivity.
  - apply (H5 (VStr "x")); reflexivity.
  - apply (H6 (fun _ => None) None (VNum 1)); reflexivity.
  - apply (H7 (Validate.number None) (VNum 1)); reflexivity.
  - apply (H8 [] (VNum 1)); reflexivity.
  - apply (H9 never_matches (VStr "x")); reflexivity.
  - apply (H10 never_matches (VStr "x")); reflexivity.
  - apply (H11 (Validate.string None) (fun _ => false) (VStr "x"));
      reflexivity.
  - apply (H12 3%Z (VStr "ab")); reflexivity.
  - apply (H13 1%Z (VStr "ab")); reflexivity.
  - apply (H14 never_matches (VStr "ab")); reflexivity.
  - apply (H15 (fun _ => None) None "soon"). reflexivity.
  - apply (H16 [Validate.number None] (VStr "x")); [reflexivity|].
    intros s [<-|[]]. reflexivity.
Defined.

(** C2 as stated fails on the minLength leaf: with a message given at
    construction and an [options.messages.minLength] at the call, the message
    given at construction is the one reported. *)
Lemma construction_message_beats_call_site :
  opt_message at_call KminLength = Some "at call" /\
  validate (Validate.minLength 3 at_construction) (VStr "ab") at_call
  = Ready (fail [mkError [] "at construction"]) /\
  validate (Validate.minLength 3 at_construction) (VStr "ab") at_call
  <> Ready (fail [mkError [] "at call"]).
Proof. repeat split. discriminate. Qed.

(** ** More on the modifier layer *)

Lemma apply_modifiers_app (s : BaseSchema) (calls calls' : list modifier) :
  apply_modifiers s (calls ++ calls')
  = apply_modifiers (apply_modifiers s calls) calls'.
Proof. unfold apply_modifiers. apply fold_left_app. Qed.

Lemma required_fields_after_nullable_calls (calls : list modifier) :
  forallb is_nullable_call calls = true ->
  forall s,
    isRequired (apply_modifiers s calls) = isRequired s /\
    requiredMessage (apply_modifiers s calls) = requiredMessage s.
Proof.
  induction calls as [|c calls IH]; intros Hall s; [now split|].
  simpl in Hall. apply andb_true_iff in Hall as [Hc Hall].
  destruct c as [m|m]; [discriminate|].
  unfold apply_modifiers in *. simpl.
  destruct (IH Hall (nullable s m)) as [H1 H2]. now rewrite H1, H2.
Qed.

(** X1.  Calls of [required] and [nullable], any number in any order, change
    nothing for an input that is neither null nor undefined: the outcome is
    the one of the schema before the calls. *)
Theorem modifiers_leave_defined_inputs (s : BaseSchema)
  (calls : list modifier) (v : value) (o : option ValidationOptions) :
  is_null v = false ->
  is_undefined v = false ->
  validate (apply_modifiers s calls) v o = validate s v o.
Proof.
  intros Hn Hu. rewrite !validate_defined by assumption.
  now rewrite validator_apply_modifiers.
Qed.

Lemma modifiers_leave_defined_inputs_witness :
  is_null (VStr "ab") = false /\ is_undefined (VStr "ab") = false /\
  validate (apply_modifiers (Validate.minLength 3 None)
              [Mrequired at_construction; Mnullable None])
           (VStr "ab") at_call
  = validate (Validate.minLength 3 None) (VStr "ab") at_call.
Proof.
  split; [reflexivity|]. split; [reflexivity|].
  apply (modifiers_leave_defined_inputs (Validate.minLength 3 None)
           [Mrequired at_construction; Mnullable None] (VStr "ab") at_call);
    reflexivity.
Defined.

(** X2.  The message of the required error is the one of the last call of
    [required] on the schema object: each call overwrites the message of the
    calls before it, a call without a message included, and calls of
    [nullable] leave it alone. *)
Theorem last_required_call_sets_message (s : BaseSchema)
  (before after : list modifier) (m : option string)
  (o : option ValidationOptions) :
  forallb is_nullable_call after = true ->
  validate (apply_modifiers s (before ++ Mrequired m :: after)) VUndefined o
  = Ready (fail [mkError [] (priority [opt_message o Krequired; m]
                                      "Value is required")]).
Proof.
  intro Hafter. rewrite apply_modifiers_app.
  change (Mrequired m :: after) with ([Mrequired m] ++ after).
  rewrite apply_modifiers_app.
  destruct (required_fields_after_nullable_calls after Hafter
              (apply_modifiers (apply_modifiers s before) [Mrequired m]))
    as [Hr Hm].
  unfold validate. rewrite Hr, Hm. simpl.
  now rewrite or_default_priority2.
Qed.

Lemma last_required_call_sets_message_witness :
  forallb is_nullable_call [Mnullable None] = true /\
  validate (apply_modifiers (Validate.string None)
              ([Mrequired at_construction] ++ Mrequired None
                 :: [Mnullable None]))
           VUndefined None
  = Ready (fail [mkError [] "Value is required"]).
Proof.
  split; [reflexivity|].
  apply (last_required_call_sets_message (Validate.string None)
           [Mrequired at_construction] [Mnullable None] None None).
  reflexivity.
Defined.

(** ** More on the union loop *)

Lemma union_loop_first_success (message : option string) (s : BaseSchema)
  (v : value) (o : option ValidationOptions) (post : list BaseSchema) :
  get_success (validate s v o) = true ->
  forall pre acc,
    (forall b, In b pre -> get_success (validate b v o) = false) ->
    union_loop message (pre ++ s :: post) v o acc = validate s v o.
Proof.
  intros Hs pre. induction pre as [|b pre IH]; intros acc Hpre; simpl.
  - now rewrite Hs.
  - rewrite (Hpre b (or_introl eq_refl)). apply IH.
    intros b' Hb'. apply Hpre. now right.
Qed.

Lemma union_loop_success (message : option string) (v : value)
  (o : option ValidationOptions) (schemas : list BaseSchema) :
  forall acc,
    get_success (union_loop message schemas v o acc)
    = some_branch_succeeds schemas v o.
Proof.
  induction schemas as [|s schemas IH]; intro acc; simpl; [reflexivity|].
  destruct (get_success (validate s v o)) eqn:E; simpl; [exact E|apply IH].
Qed.

(** X3.  First match wins, on an input that gets past the modifier layer of
    the union itself (not null, and not undefined on a union marked
    required): when a branch of the union reads as successful and every
    branch declared before it does not, [validate] returns the outcome of
    that branch as it is.  The errors of the earlier branches are dropped and
    the branches declared after it have no influence. *)
Theorem union_returns_first_success (before after : list BaseSchema)
  (s : BaseSchema) (message : option string) (calls : list modifier)
  (v : value) (o : option ValidationOptions) :
  is_null v = false ->
  is_undefined v
  && isRequired (apply_modifiers
                   (Validate.union (before ++ s :: after) message) calls)
  = false ->
  (forall b, In b before -> get_success (validate b v o) = false) ->
  get_success (validate s v o) = true ->
  validate (apply_modifiers (Validate.union (before ++ s :: after) message)
                            calls) v o
  = validate s v o.
Proof.
  intros Hn Hu Hbefore Hs. rewrite validate_past_gate by assumption.
  rewrite validator_apply_modifiers. simpl.
  now apply union_loop_first_success.
Qed.

Lemma union_returns_first_success_witness :
  is_null (VNum 5) = false /\
  get_success (validate (Validate.number None) (VNum 5) None) = true /\
  validate (apply_modifiers
              (Validate.union
                 ([Validate.string None] ++ Validate.number None
                    :: [Validate.minLength 3 None]) None) [])
           (VNum 5) None
  = validate (Validate.number None) (VNum 5) None.
Proof.
  split; [reflexivity|]. split; [reflexivity|].
  apply (union_returns_first_success [Validate.string None]
           [Validate.minLength 3 None] (Validate.number None) None []
           (VNum 5) None).
  - reflexivity.
  - reflexivity.
  - intros b [<-|[]]. reflexivity.
  - reflexivity.
Defined.

(** X4.  On an input that gets past its modifier layer, a union reads as
    successful exactly when one of its branches does; in particular a union
    without branches never succeeds there. *)
Theorem union_succeeds_iff_some_branch (schemas : list BaseSchema)
  (message : option string) (calls : list modifier) (v : value)
  (o : option ValidationOptions) :
  is_null v = false ->
  is_undefined v
  && isRequired (apply_modifiers (Validate.union schemas message) calls)
  = false ->
  get_success
    (validate (apply_modifiers (Validate.union schemas message) calls) v o)
  = true
  <-> exists s, In s schemas /\ get_success (validate s v o) = true.
Proof.
  intros Hn Hu. rewrite validate_past_gate by assumption.
  rewrite validator_apply_modifiers. simpl.
  rewrite union_loop_success. unfold some_branch_succeeds.
  apply existsb_exists.
Qed.

Lemma union_succeeds_iff_some_branch_witness :
  is_null (VBool true) = false /\
  (get_success
     (validate (apply_modifiers
                  (Validate.union [Validate.string None; Validate.boolean None]
                                  None) [])
               (VBool true) None)
   = true
   <-> exists s, In s [Validate.string None; Validate.boolean None] /\
                 get_success (validate s (VBool true) None) = true).
Proof.
  split; [reflexivity|].
  apply (union_succeeds_iff_some_branch
           [Validate.string None; Validate.boolean None] None []
           (VBool true) None); reflexivity.
Defined.

(** ** The object loop *)

Lemma fold_object_step (v : value) (o : option ValidationOptions)
  (shape : list (string * BaseSchema)) :
  forall (errs : list ValidationError) (result : list (string * value)),
    fold_left (object_step v o) shape (errs, result)
    = (errs ++ object_errors shape v o,
       fold_left (record_step v o) shape result).
Proof.
  induction shape as [|[key schema] shape IH]; intros errs result.
  - simpl. now rewrite app_nil_r.
  - cbn [fold_left]. unfold object_step at 2, record_step at 2.
    cbn [fst snd object_errors flat_map].
    destruct (get_success (validate schema (get_prop v key) o)); simpl;
      rewrite IH; unfold object_errors; [reflexivity|].
    now rewrite <- app_assoc.
Qed.

Lemma is_object_input_gate (v : value) :
  is_object_input v = true -> is_null v = false /\ is_undefined v = false.
Proof. destruct v; simpl; intro H; (discriminate || now split). Qed.

Lemma object_validator_on_object (shape : list (string * BaseSchema))
  (tm : option string) (calls : list modifier) (v : value)
  (o : option ValidationOptions) :
  is_object_input v = true ->
  validate (apply_modifiers (Validate.object shape tm) calls) v o
  = match object_errors shape v o with
    | [] => Ready (ok (VObj (object_record shape v o)))
    | errs => Ready (fail errs)
    end.
Proof.
  intro Hv. destruct (is_object_input_gate v Hv) as [Hn Hu].
  rewrite validate_defined by assumption.
  rewrite validator_apply_modifiers. simpl.
  unfold is_object_input in Hv. apply andb_true_iff in Hv as [Ht _].
  rewrite Ht, Hn. simpl. rewrite fold_object_step. simpl.
  rewrite nonempty_length. unfold object_record.
  now destruct (object_errors shape v o).
Qed.

(** X5.  On a plain object, and with a shape none of whose keys is a name
    inherited from [Object.prototype], an object schema visits every field of
    [Object.entries(shape)], in that order, whatever the earlier fields gave:
    the reported errors are, field after field, those of each field that does
    not read as successful, with the key put in front of every path; with
    none to report it succeeds with the record of the values of the
    fields. *)
Theorem object_collects_all_fields (shape : list (string * BaseSchema))
  (tm : option string) (calls : list modifier)
  (props : list (string * value)) (o : option ValidationOptions) :
  own_keys shape = true ->
  validate (apply_modifiers (Validate.object shape tm) calls) (VObj props) o
  = match object_errors shape (VObj props) o with
    | [] => Ready (ok (VObj (object_record shape (VObj props) o)))
    | errs => Ready (fail errs)
    end.
Proof. intros _. now apply object_validator_on_object. Qed.

Lemma object_collects_all_fields_witness :
  own_keys [("name", required (Validate.string None) None);
            ("age", Validate.number None)] = true /\
  validate (apply_modifiers person []) (VObj [("age", VStr "old")]) None
  = Ready (fail [mkError ["name"] "Value is required";
                 mkError ["age"] "Value must be a number"]).
Proof.
  split; [reflexivity|].
  apply (object_collects_all_fields
           [("name", required (Validate.string None) None);
            ("age", Validate.number None)] None [] [("age", VStr "old")]
           None).
  reflexivity.
Defined.

Lemma in_object_errors (shape : list (string * BaseSchema)) (v : value)
  (o : option ValidationOptions) (e : ValidationError) :
  In e (object_errors shape v o) ->
  exists key schema es e',
    In (key, schema) shape /\
    get_success (validate schema (get_prop v key) o) = false /\
    get_errors (validate schema (get_prop v key) o) = Some es /\
    In e' es /\ e = mkError (key :: path e') (message e').
Proof.
  unfold object_errors. intro Hin. apply in_flat_map in Hin.
  destruct Hin as [[key schema] [Hksh He]]. simpl in He.
  destruct (get_success (validate schema (get_prop v key) o)) eqn:Hs;
    [contradiction|].
  destruct (get_errors (validate schema (get_prop v key) o)) as [es|] eqn:Hes;
    [|contradiction].
  simpl in He. apply in_map_iff in He. destruct He as [e' [<- He']].
  exists key, schema, es, e'. repeat split; assumption.
Qed.

(** X6.  On a plain object, and with a shape none of whose keys is a name
    inherited from [Object.prototype], every error an object schema reports
    comes from a field of the shape that failed: its path is the key of that
    field followed by the path of one of the errors of the field, and its
    message is that error's message. *)
Theorem object_errors_come_from_fields (shape : list (string * BaseSchema))
  (tm : option string) (calls : list modifier)
  (props : list (string * value)) (o : option ValidationOptions)
  (errs : list ValidationError) :
  own_keys shape = true ->
  get_errors (validate (apply_modifiers (Validate.object shape tm) calls)
                       (VObj props) o)
  = Some errs ->
  forall e, In e errs ->
    exists key schema es e',
      In (key, schema) shape /\
      get_success (validate schema (get_prop (VObj props) key) o) = false /\
      get_errors (validate schema (get_prop (VObj props) key) o) = Some es /\
      In e' es /\ e = mkError (key :: path e') (message e').
Proof.
  intros _ Herrs e He.
  rewrite object_validator_on_object in Herrs by reflexivity.
  apply (in_object_errors shape (VObj props) o).
  destruct (object_errors shape (VObj props) o) as [|e0 rest];
    simpl in Herrs.
  - discriminate.
  - injection Herrs as <-. exact He.
Qed.

Lemma object_errors_come_from_fields_witness :
  own_keys [("name", required (Validate.string None) None);
            ("age", Validate.number None)] = true /\
  exists key schema es e',
    In (key, schema)
       [("name", required (Validate.string None) None);
        ("age", Validate.number None)] /\
    get_success (validate schema (get_prop (VObj [("age", VStr "old")]) key)
                          None) = false /\
    get_errors (validate schema (get_prop (VObj [("age", VStr "old")]) key)
                         None) = Some es /\
    In e' es /\
    mkError ["age"] "Value must be a number"
    = mkError (key :: path e') (message e').
Proof.
  split; [reflexivity|].
  apply (object_errors_come_from_fields
           [("name", required (Validate.string None) None);
            ("age", Validate.number None)] None []
           [("age", VStr "old")] None
           (errs := [mkError ["name"] "Value is required";
                     mkError ["age"] "Value must be a number"])).
  - reflexivity.
  - reflexivity.
  - right. left. reflexivity.
Defined.

Lemma fold_object_step_ext (v v' : value) (o : option ValidationOptions)
  (shape : list (string * BaseSchema)) :
  (forall key schema, In (key, schema) shape ->
                      get_prop v key = get_prop v' key) ->
  forall st,
    fold_left (object_step v o) shape st
    = fold_left (object_step v' o) shape st.
Proof.
  induction shape as [|[key schema] shape IH]; intros Hsame st;
    [reflexivity|].
  cbn [fold_left]. rewrite IH by (intros k s Hks; apply (Hsame k s); now right).
  f_equal. unfold object_step.
  now rewrite (Hsame key schema (or_introl eq_refl)).
Qed.

(** X7.  An object schema reads the declared properties of its input and
    nothing else: two object inputs that agree on every declared key get the
    same outcome, so properties that are not declared are neither reported
    nor copied. *)
Theorem object_reads_declared_keys_only (shape : list (string * BaseSchema))
  (tm : option string) (calls : list modifier) (v v' : value)
  (o : option ValidationOptions) :
  is_object_input v = true ->
  is_object_input v' = true ->
  (forall key schema, In (key, schema) shape ->
                      get_prop v key = get_prop v' key) ->
  validate (apply_modifiers (Validate.object shape tm) calls) v o
  = validate (apply_modifiers (Validate.object shape tm) calls) v' o.
Proof.
  intros Hv Hv' Hsame.
  destruct (is_object_input_gate v Hv) as [Hn Hu].
  destruct (is_object_input_gate v' Hv') as [Hn' Hu'].
  rewrite !validate_defined by assumption.
  rewrite validator_apply_modifiers. simpl.
  unfold is_object_input in Hv, Hv'.
  apply andb_true_iff in Hv as [Ht _]. apply andb_true_iff in Hv' as [Ht' _].
  rewrite Ht, Ht', Hn, Hn'. simpl.
  now rewrite (fold_object_step_ext v v' o shape Hsame).
Qed.

Lemma object_reads_declared_keys_only_witness :
  is_object_input (VObj [("age", VNum 30); ("name", VStr "Ada")]) = true /\
  is_object_input
    (VObj [("name", VStr "Ada"); ("admin", VBool true); ("age", VNum 30)])
  = true /\
  validate (apply_modifiers person [])
           (VObj [("age", VNum 30); ("name", VStr "Ada")]) None
  = validate (apply_modifiers person [])
             (VObj [("name", VStr "Ada"); ("admin", VBool true);
                    ("age", VNum 30)]) None.
Proof.
  split; [reflexivity|]. split; [reflexivity|].
  apply (object_reads_declared_keys_only
           [("name", required (Validate.string None) None);
            ("age", Validate.number None)] None []
           (VObj [("age", VNum 30); ("name", VStr "Ada")])
           (VObj [("name", VStr "Ada"); ("admin", VBool true);
                  ("age", VNum 30)]) None).
  - reflexivity.
  - reflexivity.
  - intros key schema [H|[H|[]]]; injection H as <- _; reflexivity.
Defined.

(** ** Built schemas are sound *)

Lemma Built_Sound (s : BaseSchema) : Built s -> Sound s.
Proof.
  intro HB.
  induction HB using Built_mut
    with (P0 := fun shape => Forall (fun entry => Sound (snd entry)) shape)
         (P1 := fun schemas => Forall Sound schemas);
    try solve [leaf]; auto using Sound_array, Sound_object, Sound_union,
                                 Sound_required, Sound_nullable, Sound_custom.
Qed.

Lemma BuiltShape_Sound (shape : list (string * BaseSchema)) :
  BuiltShape shape -> Forall (fun entry => Sound (snd entry)) shape.
Proof.
  induction 1 as [|key s shape Hs _ IH]; constructor;
    [now apply Built_Sound|exact IH].
Qed.

(** A sound child that does not read as successful reports an error. *)
Lemma Sound_failure_has_errors (s : BaseSchema) (v : value)
  (o : option ValidationOptions) :
  Sound s -> get_success (validate s v o) = false ->
  exists e es, get_errors (validate s v o) = Some (e :: es).
Proof.
  intros HS Hf. destruct (HS v o) as [r [Hr [_ Hinv]]].
  rewrite Hr in *. simpl in *. now destruct (Hinv Hf).
Qed.

Lemma no_object_errors_all_succeed (shape : list (string * BaseSchema))
  (v : value) (o : option ValidationOptions) :
  Forall (fun entry => Sound (snd entry)) shape ->
  object_errors shape v o = [] ->
  forall entry, In entry shape ->
    get_success (validate (snd entry) (get_prop v (fst entry)) o) = true.
Proof.
  induction 1 as [|[key schema] shape Hs _ IH]; intros Hnil entry Hin;
    [contradiction|].
  unfold object_errors in Hnil. cbn [flat_map] in Hnil.
  apply app_eq_nil in Hnil as [Hhead Htail].
  destruct Hin as [<-|Hin]; [|now apply IH].
  simpl. destruct (get_success (validate schema (get_prop v key) o)) eqn:E;
    [reflexivity|].
  destruct (Sound_failure_has_errors (get_prop v key) o Hs E) as [e [es He]].
  simpl in He. rewrite He in Hhead. discriminate.
Qed.

Lemma assoc_set_fresh (props : list (string * value)) (key : string)
  (x : value) :
  ~ In key (map fst props) -> assoc_set props key x = props ++ [(key, x)].
Proof.
  induction props as [|[k w] props IH]; intro Hfresh; [reflexivity|].
  simpl in *. destruct (String.eqb k key) eqn:E.
  - apply String.eqb_eq in E. tauto.
  - rewrite IH by tauto. reflexivity.
Qed.

Lemma record_of_successes (v : value) (o : option ValidationOptions)
  (shape : list (string * BaseSchema)) :
  (forall entry, In entry shape ->
     get_success (validate (snd entry) (get_prop v (fst entry)) o) = true) ->
  forall result,
    NoDup (map fst result ++ map fst shape) ->
    fold_left (record_step v o) shape result
    = result ++ map (field_entry v o) shape.
Proof.
  induction shape as [|entry shape IH]; intros Hall result Hnd; simpl.
  - now rewrite app_nil_r.
  - unfold record_step at 2. rewrite (Hall entry (or_introl eq_refl)).
    assert (Hfresh : ~ In (fst entry) (map fst result)).
    { simpl in Hnd. apply NoDup_remove_2 in Hnd.
      intro Hin. apply Hnd. apply in_or_app. now left. }
    rewrite (assoc_set_fresh result (fst entry) _ Hfresh).
    rewrite IH.
    + now rewrite <- app_assoc.
    + intros e He. apply Hall. now right.
    + rewrite map_app. simpl. rewrite <- app_assoc. exact Hnd.
Qed.

(** X8.  Take an object schema with built fields (synchronous predicates)
    whose keys are pairwise distinct and none a name inherited from
    [Object.prototype].  When it succeeds on a plain object, every field of
    the shape succeeded, and the value is a fresh record that holds exactly
    the keys of the shape, in the order of [Object.entries(shape)], each with
    the value its field schema returned. *)
Theorem object_success_record (shape : list (string * BaseSchema))
  (tm : option string) (calls : list modifier)
  (props : list (string * value)) (o : option ValidationOptions)
  (r : ValidationResult) :
  BuiltShape shape ->
  NoDup (map fst shape) ->
  own_keys shape = true ->
  validate (apply_modifiers (Validate.object shape tm) calls) (VObj props) o
  = Ready r ->
  success r = true ->
  value_ r = Some (VObj (map (field_entry (VObj props) o) shape)) /\
  forall key schema, In (key, schema) shape ->
    get_success (validate schema (get_prop (VObj props) key) o) = true.
Proof.
  intros HB Hnd _ Hr Hok.
  rewrite object_validator_on_object in Hr by reflexivity.
  destruct (object_errors shape (VObj props) o) as [|e errs] eqn:Herrs.
  - assert (Hall := no_object_errors_all_succeed (VObj props) o
                      (BuiltShape_Sound HB) Herrs).
    injection Hr as <-. split.
    + simpl. unfold object_record.
      now rewrite (record_of_successes (VObj props) o shape Hall []).
    + intros key schema Hin. apply (Hall (key, schema) Hin).
  - injection Hr as <-. discriminate.
Qed.

Lemma object_success_record_witness :
  NoDup (map fst [("name", required (Validate.string None) None);
                  ("age", Validate.number None)]) /\
  own_keys [("name", required (Validate.string None) None);
            ("age", Validate.number None)] = true /\
  validate (apply_modifiers person [])
           (VObj [("age", VNum 30); ("admin", VBool true);
                  ("name", VStr "Ada")]) None
  = Ready (ok (VObj [("name", VStr "Ada"); ("age", VNum 30)])) /\
  value_ (ok (VObj [("name", VStr "Ada"); ("age", VNum 30)]))
  = Some (VObj (map (field_entry
                       (VObj [("age", VNum 30); ("admin", VBool true);
                              ("name", VStr "Ada")]) None)
                    [("name", required (Validate.string None) None);
                     ("age", Validate.number None)])).
Proof.
  assert (Hnd : NoDup (map fst [("name", required (Validate.string None) None);
                                ("age", Validate.number None)])).
  { constructor.
    - intros [H|[]]. discriminate.
    - constructor; [intros []|constructor]. }
  split; [exact Hnd|]. split; [reflexivity|]. split; [reflexivity|].
  apply (object_success_record
           (shape := [("name", required (Validate.string None) None);
                      ("age", Validate.number None)])
           None []
           [("age", VNum 30); ("admin", VBool true); ("name", VStr "Ada")]
           None).
  - apply BuiltShape_cons.
    + apply Built_required. apply Built_string.
    + apply BuiltShape_cons; [apply Built_number|apply BuiltShape_nil].
  - exact Hnd.
  - reflexivity.
  - reflexivity.
  - reflexivity.
Defined.

Lemma object_errors_one_each (v : value) (o : option ValidationOptions)
  (shape : list (string * BaseSchema)) :
  (forall entry, In entry shape ->
     exists e, validate (snd entry) (get_prop v (fst entry)) o
               = Ready (fail [e])) ->
  List.length (object_errors shape v o) = List.length shape /\
  map path_head (object_errors shape v o)
  = map (fun entry => Some (fst entry)) shape.
Proof.
  induction shape as [|[key schema] shape IH]; intro Hall; [now split|].
  destruct (Hall (key, schema) (or_introl eq_refl)) as [e He]. simpl in He.
  destruct IH as [IHlen IHmap]; [intros entry Hin; apply Hall; now right|].
  unfold object_errors in *. cbn [flat_map]. rewrite He. simpl.
  now rewrite IHlen, IHmap.
Qed.

(** X9.  Collect-all in numbers: on a plain object, and with a non-empty
    shape none of whose keys is a name inherited from [Object.prototype],
    when every field of the shape fails with exactly one error, the object
    fails with exactly as many errors as it has fields, and the first path
    segments of the errors are the keys of the fields, in the order of
    [Object.entries(shape)]. *)
Theorem object_one_error_per_invalid_field
  (shape : list (string * BaseSchema)) (tm : option string)
  (calls : list modifier) (props : list (string * value))
  (o : option ValidationOptions) :
  own_keys shape = true ->
  shape <> [] ->
  (forall entry, In entry shape ->
     exists e, validate (snd entry) (get_prop (VObj props) (fst entry)) o
               = Ready (fail [e])) ->
  exists errs,
    validate (apply_modifiers (Validate.object shape tm) calls) (VObj props) o
    = Ready (fail errs) /\
    List.length errs = List.length shape /\
    map path_head errs = map (fun entry => Some (fst entry)) shape.
Proof.
  intros _ Hne Hall. rewrite object_validator_on_object by reflexivity.
  destruct (object_errors_one_each (VObj props) o shape Hall) as [Hlen Hmap].
  destruct (object_errors shape (VObj props) o) as [|e errs] eqn:E.
  - destruct shape; [contradiction|discriminate].
  - exists (e :: errs). now repeat split.
Qed.

Lemma object_one_error_per_invalid_field_witness :
  own_keys [("name", required (Validate.string None) None);
            ("age", Validate.number None)] = true /\
  exists errs,
    validate (apply_modifiers person []) (VObj [("age", VStr "old")]) None
    = Ready (fail errs) /\
    List.length errs = 2 /\
    map path_head errs = [Some "name"; Some "age"].
Proof.
  split; [reflexivity|].
  apply (object_one_error_per_invalid_field
           (shape := [("name", required (Validate.string None) None);
                      ("age", Validate.number None)])
           None [] [("age", VStr "old")] None).
  - reflexivity.
  - discriminate.
  - intros entry [<-|[<-|[]]]; eexists; reflexivity.
Defined.

(** ** Schemas without custom predicates and undefined *)

Lemma CustomFree_Built (s : BaseSchema) : CustomFree s -> Built s.
Proof.
  intro H.
  induction H using CustomFree_mut
    with (P0 := BuiltShape) (P1 := BuiltList).
  - apply Built_string.
  - apply Built_number.
  - apply Built_boolean.
  - apply Built_date.
  - apply Built_email.
  - apply Built_url.
  - apply Built_minLength.
  - apply Built_maxLength.
  - apply Built_pattern.
  - now apply Built_array.
  - now apply Built_object.
  - now apply Built_union.
  - now apply Built_required.
  - now apply Built_nullable.
  - apply BuiltShape_nil.
  - now apply BuiltShape_cons.
  - apply BuiltList_nil.
  - now apply BuiltList_cons.
Qed.

Lemma CustomFree_rejects_undefined (s : BaseSchema) :
  CustomFree s ->
  forall o, get_success (validate s VUndefined o) = false.
Proof.
  intro H.
  induction H using CustomFree_mut
    with (P0 := fun shape => True)
         (P1 := fun schemas =>
                  forall o b, In b schemas ->
                              get_success (validate b VUndefined o) = false);
    try (intro o; reflexivity); auto.
  - intro o. unfold validate. simpl.
    now rewrite union_loop_all_fail by (apply IHCustomFree).
  - intros o b [].
  - intros o b [<-|Hin]; [apply IHCustomFree|now apply IHCustomFree0].
Qed.

Lemma CustomFree_undefined_errors (s : BaseSchema)
  (o : option ValidationOptions) :
  CustomFree s ->
  exists e es, validate s VUndefined o = Ready (fail (e :: es)).
Proof.
  intro H.
  destruct (Built_Sound (CustomFree_Built H) VUndefined o)
    as [r [Hr [_ Hinv]]].
  assert (Hf := CustomFree_rejects_undefined H o).
  rewrite Hr in *. simpl in Hf.
  destruct (Hinv Hf) as [[e [es He]] Hv].
  exists e, es. destruct r as [b val errs]. simpl in *. now subst.
Qed.

(** X10.  No schema built without [custom] accepts undefined: whether
    [required()] was called or not, [validate(undefined)] fails.  Without the
    required flag the input falls through to the validator, whose type test
    rejects it. *)
Theorem undefined_fails_without_custom (s : BaseSchema)
  (o : option ValidationOptions) :
  CustomFree s ->
  exists e es, validate s VUndefined o = Ready (fail (e :: es)).
Proof. apply CustomFree_undefined_errors. Qed.

Lemma undefined_fails_without_custom_witness :
  CustomFree (nullable (Validate.union [Validate.number None;
                                        Validate.array (Validate.string None)
                                                       None] None) None) /\
  exists e es,
    validate (nullable (Validate.union [Validate.number None;
                                        Validate.array (Validate.string None)
                                                       None] None) None)
             VUndefined None
    = Ready (fail (e :: es)).
Proof.
  assert (H : CustomFree
                (nullable (Validate.union
                             [Validate.number None;
                              Validate.array (Validate.string None) None]
                             None) None)).
  { apply CustomFree_nullable. apply CustomFree_union.
    apply CustomFreeList_cons; [apply CustomFree_number|].
    apply CustomFreeList_cons; [|apply CustomFreeList_nil].
    apply CustomFree_array. apply CustomFree_string. }
  split; [exact H|].
  apply (undefined_fails_without_custom None H).
Defined.

Lemma failing_field_is_reported (shape : list (string * BaseSchema))
  (v : value) (o : option ValidationOptions) (key : string)
  (schema : BaseSchema) (e : ValidationError) (es : list ValidationError) :
  In (key, schema) shape ->
  validate schema (get_prop v key) o = Ready (fail (e :: es)) ->
  In (prepend key e) (object_errors shape v o).
Proof.
  intros Hin Hf. unfold object_errors. apply in_flat_map.
  exists (key, schema). split; [exact Hin|]. simpl. rewrite Hf. simpl.
  now left.
Qed.

(** X11.  There are no optional fields for schemas without [custom]: when
    a plain object has no own property under a key of the shape (or holds
    undefined there), the key is not a name inherited from
    [Object.prototype], and the schema declared for it is built without
    [custom], the object fails, and one of its errors has that key as first
    path segment. *)
Theorem missing_property_fails (shape : list (string * BaseSchema))
  (tm : option string) (calls : list modifier)
  (props : list (string * value)) (o : option ValidationOptions)
  (key : string) (schema : BaseSchema) :
  In (key, schema) shape ->
  CustomFree schema ->
  own_key key = true ->
  assoc_get props key = VUndefined ->
  exists errs e,
    validate (apply_modifiers (Validate.object shape tm) calls) (VObj props) o
    = Ready (fail errs) /\
    In e errs /\ path_head e = Some key.
Proof.
  intros Hin Hcf _ Hmissing.
  rewrite object_validator_on_object by reflexivity.
  destruct (CustomFree_undefined_errors o Hcf) as [e [es He]].
  change (assoc_get props key) with (get_prop (VObj props) key) in Hmissing.
  rewrite <- Hmissing in He.
  assert (Hrep := failing_field_is_reported shape (VObj props) o key schema
                    Hin He).
  destruct (object_errors shape (VObj props) o) as [|e0 errs];
    [contradiction|].
  exists (e0 :: errs), (prepend key e). now repeat split.
Qed.

Lemma missing_property_fails_witness :
  own_key "age" = true /\
  assoc_get [("name", VStr "Ada")] "age" = VUndefined /\
  exists errs e,
    validate (apply_modifiers person []) (VObj [("name", VStr "Ada")]) None
    = Ready (fail errs) /\
    In e errs /\ path_head e = Some "age".
Proof.
  split; [reflexivity|]. split; [reflexivity|].
  apply (@missing_property_fails
           [("name", required (Validate.string None) None);
            ("age", Validate.number None)] None []
           [("name", VStr "Ada")] None "age" (Validate.number None)).
  - right. left. reflexivity.
  - apply CustomFree_number.
  - reflexivity.
  - reflexivity.
Defined.

(** ** More on the array loop *)

Lemma array_validator_on_array (schema : BaseSchema) (tm : option string)
  (calls : list modifier) (items : list value)
  (o : option ValidationOptions) :
  validate (apply_modifiers (Validate.array schema tm) calls) (VArr items) o
  = match array_errors schema o items with
    | [] => Ready (ok (VArr (array_values schema o items)))
    | errs => Ready (fail errs)
    end.
Proof.
  rewrite validate_defined by reflexivity.
  rewrite validator_apply_modifiers. simpl.
  rewrite forEach_array_step. simpl. rewrite nonempty_length.
  unfold array_errors, indexed.
  now destruct (flat_map _ (combine _ items)).
Qed.

Lemma in_combine_seq {A : Type} (l : list A) :
  forall (start i : nat) (x : A),
    In (i, x) (combine (seq start (List.length l)) l) ->
    (start <= i)%nat /\ nth_error l (i - start) = Some x.
Proof.
  induction l as [|y l IH]; intros start i x Hin; [contradiction|].
  simpl in Hin. destruct Hin as [Heq|Hin].
  - injection Heq as <- <-. split; [lia|]. now rewrite Nat.sub_diag.
  - destruct (IH (S start) i x Hin) as [Hle Hnth]. split; [lia|].
    replace (i - start)%nat with (S (i - S start)) by lia. exact Hnth.
Qed.

(** X12.  On an array input, every error an array schema reports comes from
    an item that failed: its path is the decimal index of that item, an index
    inside the array, followed by the path of one of the errors of the item,
    and its message is that error's message. *)
Theorem array_errors_come_from_items (schema : BaseSchema)
  (tm : option string) (calls : list modifier) (items : list value)
  (o : option ValidationOptions) (errs : list ValidationError) :
  get_errors (validate (apply_modifiers (Validate.array schema tm) calls)
                       (VArr items) o)
  = Some errs ->
  forall e, In e errs ->
    exists index item es e',
      nth_error items index = Some item /\
      get_success (validate schema item o) = false /\
      get_errors (validate schema item o) = Some es /\
      In e' es /\
      e = mkError (index_toString index :: path e') (message e').
Proof.
  intros Herrs e He. rewrite array_validator_on_array in Herrs.
  assert (Hin : In e (array_errors schema o items)).
  { destruct (array_errors schema o items); simpl in Herrs;
      [discriminate|]. injection Herrs as <-. exact He. }
  unfold array_errors, indexed in Hin. apply in_flat_map in Hin.
  destruct Hin as [[index item] [Hpos Hrel]].
  apply in_combine_seq in Hpos as [_ Hnth]. rewrite Nat.sub_0_r in Hnth.
  simpl in Hrel.
  destruct (get_success (validate schema item o)) eqn:Hs; [contradiction|].
  destruct (get_errors (validate schema item o)) as [es|] eqn:Hes;
    [|contradiction].
  simpl in Hrel. apply in_map_iff in Hrel. destruct Hrel as [e' [<- He']].
  exists index, item, es, e'. repeat split; assumption.
Qed.

Lemma array_errors_come_from_items_witness :
  exists index item es e',
    nth_error [VNum 1; VStr "x"; VNum 3] index = Some item /\
    get_success (validate (Validate.number None) item None) = false /\
    get_errors (validate (Validate.number None) item None) = Some es /\
    In e' es /\
    mkError ["1"] "Value must be a number"
    = mkError (index_toString index :: path e') (message e').
Proof.
  apply (array_errors_come_from_items (Validate.number None) None []
           [VNum 1; VStr "x"; VNum 3] None
           (errs := [mkError ["1"] "Value must be a number"])).
  - reflexivity.
  - left. reflexivity.
Defined.

Lemma no_array_errors_all_succeed (schema : BaseSchema)
  (o : option ValidationOptions) (items : list value) :
  Sound schema ->
  forall start,
    flat_map (fun '(index, item) =>
                let r := validate schema item o in
                if get_success r then []
                else relabel (index_toString index) (get_errors r))
             (combine (seq start (List.length items)) items) = [] ->
    Forall (fun item => get_success (validate schema item o) = true) items.
Proof.
  intro HS. induction items as [|item items IH]; intros start Hnil;
    [constructor|].
  simpl in Hnil. apply app_eq_nil in Hnil as [Hhead Htail].
  constructor; [|now apply (IH (S start))].
  destruct (get_success (validate schema item o)) eqn:E; [reflexivity|].
  destruct (Sound_failure_has_errors item o HS E) as [e [es He]].
  rewrite He in Hhead. discriminate.
Qed.

Lemma array_values_all_succeed (schema : BaseSchema)
  (o : option ValidationOptions) (items : list value) :
  Forall (fun item => get_success (validate schema item o) = true) items ->
  array_values schema o items
  = map (fun item => get_value (validate schema item o)) items.
Proof.
  induction 1 as [|item items Hs _ IH]; [reflexivity|].
  unfold array_values in *. simpl. now rewrite Hs, IH.
Qed.

(** X13.  When an array schema over a built item schema (synchronous
    predicates) succeeds on an array input, every item succeeded, and the
    value is the array of the values the item schema returned, one per item
    and in the same order. *)
Theorem array_success_values (schema : BaseSchema) (tm : option string)
  (calls : list modifier) (items : list value)
  (o : option ValidationOptions) (r : ValidationResult) :
  Built schema ->
  validate (apply_modifiers (Validate.array schema tm) calls) (VArr items) o
  = Ready r ->
  success r = true ->
  value_ r
  = Some (VArr (map (fun item => get_value (validate schema item o)) items))
  /\ Forall (fun item => get_success (validate schema item o) = true) items.
Proof.
  intros HB Hr Hok. rewrite array_validator_on_array in Hr.
  destruct (array_errors schema o items) as [|e errs] eqn:Herrs.
  - assert (Hall := no_array_errors_all_succeed o items (Built_Sound HB)
                      0 Herrs).
    injection Hr as <-. split; [|exact Hall]. simpl.
    now rewrite array_values_all_succeed.
  - injection Hr as <-. discriminate.
Qed.

Lemma array_success_values_witness :
  Built (Validate.number None) /\
  value_ (ok (VArr [VNum 1; VNum 2]))
  = Some (VArr (map (fun item =>
                       get_value (validate (Validate.number None) item None))
                    [VNum 1; VNum 2])).
Proof.
  split; [apply Built_number|].
  apply (array_success_values (schema := Validate.number None) None []
           [VNum 1; VNum 2] None (Built_number None)); reflexivity.
Defined.

(** ** Schemas that hand the input back *)

Lemma Plain_Built (s : BaseSchema) : Plain s -> Built s.
Proof.
  intro H.
  induction H using Plain_mut with (P0 := BuiltList).
  - apply Built_string.
  - apply Built_number.
  - apply Built_boolean.
  - apply Built_email.
  - apply Built_url.
  - apply Built_minLength.
  - apply Built_maxLength.
  - apply Built_pattern.
  - now apply Built_union.
  - now apply Built_required.
  - now apply Built_nullable.
  - now apply Built_custom.
  - apply BuiltList_nil.
  - now apply BuiltList_cons.
Qed.

Lemma union_loop_success_branch (message : option string) (v : value)
  (o : option ValidationOptions) (schemas : list BaseSchema) :
  forall acc,
    get_success (union_loop message schemas v o acc) = true ->
    exists s, In s schemas /\
              union_loop message schemas v o acc = validate s v o /\
              get_success (validate s v o) = true.
Proof.
  induction schemas as [|s schemas IH]; intros acc Hok; simpl in *;
    [discriminate|].
  destruct (get_success (validate s v o)) eqn:E.
  - exists s. now repeat split; auto.
  - destruct (IH _ Hok) as [b [Hin [Heq Hb]]]. exists b. auto.
Qed.

Ltac plain_leaf :=
  intros v o r Hr Hok; unfold validate in Hr; simpl in Hr;
  repeat match type of Hr with
         | context [if ?b then _ else _] => destruct b
         end;
  injection Hr as <-; (discriminate || reflexivity).

Lemma Plain_hands_input_back (s : BaseSchema) :
  Plain s ->
  forall v o r, validate s v o = Ready r -> success r = true ->
                value_ r = Some v.
Proof.
  intro H.
  induction H using Plain_mut
    with (P0 := fun schemas =>
                  forall b, In b schemas ->
                    forall v o r, validate b v o = Ready r ->
                                  success r = true -> value_ r = Some v);
    try solve [plain_leaf].
  - (* union *)
    intros v o r Hr Hok. unfold validate in Hr. simpl in Hr.
    destruct (is_null v); [injection Hr as <-; discriminate|].
    rewrite andb_false_r in Hr.
    assert (Hs : get_success (union_loop m schemas v o []) = true)
      by (rewrite Hr; exact Hok).
    destruct (union_loop_success_branch _ _ _ _ _ Hs) as [b [Hin [Heq _]]].
    rewrite Heq in Hr. apply (IHPlain b Hin v o r Hr Hok).
  - (* required *)
    intros v o r Hr Hok. apply (IHPlain v o r); [|exact Hok].
    unfold validate in *. simpl in Hr.
    destruct (is_null v); [exact Hr|].
    destruct (is_undefined v); simpl in *; [|exact Hr].
    injection Hr as <-. discriminate.
  - (* nullable *)
    intros v o r Hr Hok. unfold validate in *. simpl in Hr.
    destruct v; try solve [apply (IHPlain _ o r); assumption].
    injection Hr as <-. reflexivity.
  - (* custom *)
    intros v o r Hr Hok. unfold validate in Hr. simpl in Hr.
    destruct (is_null v); [injection Hr as <-; discriminate|].
    rewrite andb_false_r in Hr. unfold custom_result in Hr.
    destruct (p v); injection Hr as <-; [reflexivity|discriminate].
  - intros b [].
  - intros b [<-|Hin]; [exact IHPlain|now apply IHPlain0].
Qed.

(** X14.  The leaves and [union] hand the input back: for a schema built
    from the string, number, boolean, email, url, minLength, maxLength and
    pattern leaves with [union], [required], [nullable] and synchronous
    [custom], a successful result always carries the input value itself.
    ([date], [array] and [object] build a value of their own.) *)
Theorem plain_schemas_return_the_input (s : BaseSchema) (v : value)
  (o : option ValidationOptions) (r : ValidationResult) :
  Plain s ->
  validate s v o = Ready r ->
  success r = true ->
  value_ r = Some v.
Proof. intros H. now apply Plain_hands_input_back. Qed.

Lemma plain_schemas_return_the_input_witness :
  Plain (nullable (Validate.union [Validate.number None;
                                   Validate.minLength 2 None] None) None) /\
  validate (nullable (Validate.union [Validate.number None;
                                      Validate.minLength 2 None] None) None)
           (VStr "ab") None
  = Ready (ok (VStr "ab")) /\
  value_ (ok (VStr "ab")) = Some (VStr "ab").
Proof.
  assert (H : Plain (nullable (Validate.union
                                 [Validate.number None;
                                  Validate.minLength 2 None] None) None)).
  { apply Plain_nullable. apply Plain_union.
    apply PlainList_cons; [apply Plain_number|].
    apply PlainList_cons; [|apply PlainList_nil].
    apply Plain_minLength. }
  split; [exact H|]. split; [reflexivity|].
  apply (plain_schemas_return_the_input (VStr "ab") None H); reflexivity.
Defined.

(** ** Null and the nullable flag *)

Lemma isNullable_without_call (calls : list modifier) :
  forallb (fun call => negb (is_nullable_call call)) calls = true ->
  forall s, isNullable (apply_modifiers s calls) = isNullable s.
Proof.
  induction calls as [|c calls IH]; intros Hall s; [reflexivity|].
  simpl in Hall. apply andb_true_iff in Hall as [Hc Hall].
  destruct c as [m|m]; [|discriminate].
  unfold apply_modifiers in *. simpl. now rewrite IH.
Qed.

Lemma forallb_false_exists {A : Type} (f : A -> bool) (l : list A) :
  forallb f l = false -> exists x, In x l /\ f x = false.
Proof.
  induction l as [|x l IH]; simpl; intro H; [discriminate|].
  destruct (f x) eqn:E.
  - destruct (IH H) as [y [Hin Hy]]. exists y. auto.
  - exists x. auto.
Qed.

(** X15.  Null is accepted only through the schema's own flag: for a schema
    object fresh from a constructor ([new BaseSchema(validator)], which every
    builder and [custom] return) and a history of modifier calls on it,
    [validate(null)] succeeds exactly when the history holds a call of
    [nullable]; otherwise it fails with the single nullable error, whose
    message comes from the options or is the default.  What the validator
    closure would accept, nullable children or branches included, plays no
    part, and a message passed to [nullable] is never reported. *)
Theorem null_accepted_iff_nullable_called
  (validator : value -> option ValidationOptions -> outcome)
  (calls : list modifier) (o : option ValidationOptions) :
  (get_success (validate (apply_modifiers (new_BaseSchema validator) calls)
                         VNull o) = true
   <-> exists m, In (Mnullable m) calls) /\
  (forallb (fun call => negb (is_nullable_call call)) calls = true ->
   validate (apply_modifiers (new_BaseSchema validator) calls) VNull o
   = Ready (fail [mkError [] (priority [opt_message o Knullable]
                                       "Value cannot be null")])).
Proof.
  assert (Hnone :
    forallb (fun call => negb (is_nullable_call call)) calls = true ->
    validate (apply_modifiers (new_BaseSchema validator) calls) VNull o
    = Ready (fail [mkError [] (priority [opt_message o Knullable]
                                        "Value cannot be null")])).
  { intro Hall. unfold validate. simpl.
    rewrite (isNullable_without_call calls Hall). simpl.
    assert (Hmsg : forall cs s, forallb (fun call =>
                     negb (is_nullable_call call)) cs = true ->
                   nullableMessage (apply_modifiers s cs) = nullableMessage s).
    { induction cs as [|c cs IH]; intros s Hcs; [reflexivity|].
      simpl in Hcs. apply andb_true_iff in Hcs as [Hc Hcs].
      destruct c as [m|m]; [|discriminate].
      unfold apply_modifiers in *. simpl. now rewrite IH. }
    rewrite (Hmsg calls _ Hall). simpl.
    now rewrite or_default_priority2; destruct (opt_message o Knullable). }
  split; [|exact Hnone]. split.
  - intro Hok.
    destruct (forallb (fun call => negb (is_nullable_call call)) calls)
      eqn:Hall.
    + rewrite (Hnone eq_refl) in Hok. discriminate.
    + apply forallb_false_exists in Hall.
      destruct Hall as [c [Hin Hc]]. destruct c as [m|m]; [discriminate|].
      now exists m.
  - intros [m Hin]. unfold validate. simpl.
    now rewrite (isNullable_after_call calls m _ Hin).
Qed.

Lemma null_accepted_iff_nullable_called_witness :
  forallb (fun call => negb (is_nullable_call call)) [Mrequired None] = true /\
  validate (apply_modifiers
              (new_BaseSchema
                 (validator
                    (Validate.union [nullable (Validate.string None) None]
                                    None)))
              [Mrequired None])
           VNull None
  = Ready (fail [mkError [] "Value cannot be null"]).
Proof.
  split; [reflexivity|].
  apply (proj2 (null_accepted_iff_nullable_called
                  (validator
                     (Validate.union [nullable (Validate.string None) None]
                                     None))
                  [Mrequired None] None)).
  reflexivity.
Defined.

(** ** The date leaf *)

(** X16.  The date leaf succeeds on exactly two kinds of non-null input: a
    Date whose time is a number, which it returns as it is, and a string the
    host parses to a time, for which it returns the parsed Date.  A
    successful result therefore always carries a valid Date, never the
    string. *)
Theorem date_success_carries_valid_date (parse : string -> option Z)
  (tm im : option string) (calls : list modifier) (v : value)
  (o : option ValidationOptions) (r : ValidationResult) :
  is_null v = false ->
  validate (apply_modifiers (Validate.date parse tm im) calls) v o
  = Ready r ->
  success r = true ->
  exists t, value_ r = Some (VDate (Some t)) /\
            (v = VDate (Some t) \/ exists s, v = VStr s /\ parse s = Some t).
Proof.
  intros Hn Hr Hok. unfold validate in Hr. rewrite Hn in Hr.
  destruct (is_undefined v && isRequired _);
    [injection Hr as <-; discriminate|].
  rewrite validator_apply_modifiers in Hr. simpl in Hr.
  destruct v as [| |b|n|s|[t|]|items|props]; simpl in Hr;
    try (injection Hr as <-; discriminate).
  - unfold Validate.to_Date in Hr. simpl in Hr.
    destruct (parse s) as [t|] eqn:Hp; injection Hr as <-; [|discriminate].
    exists t. split; [reflexivity|]. right. now exists s.
  - injection Hr as <-. exists t. split; [reflexivity|now left].
Qed.

Lemma date_success_carries_valid_date_witness :
  is_null (VStr "1970-01-01") = false /\
  exists t, value_ (ok (VDate (Some 0%Z))) = Some (VDate (Some t)) /\
            (VStr "1970-01-01" = VDate (Some t) \/
             exists s, VStr "1970-01-01" = VStr s /\
                       (fun _ : string => Some 0%Z) s = Some t).
Proof.
  split; [reflexivity|].
  apply (@date_success_carries_valid_date
           (fun _ : string => Some 0%Z) None None
           [Mrequired None] (VStr "1970-01-01") None (ok (VDate (Some 0%Z))));
    reflexivity.
Defined.

(** ** The length leaves *)





(** ** A deferred predicate at the top level *)

(** X19.  When the custom predicate answers with a promise, [validate] on a
    non-null input answers with a promise that settles the way the
    predicate's promise does: fulfilled with true gives the success result
    with the input, fulfilled with false gives the single custom error, and a
    rejection is passed on as a rejection, not turned into a failure result.
    Null is still answered at once by the modifier layer. *)
Theorem deferred_validate_follows_predicate (this : BaseSchema)
  (settles : value -> promise bool) (m : option string) (v : value)
  (o : option ValidationOptions) :
  (is_null v = false ->
   exists p,
     validate (deferred_leaf this settles m) v o = Deferred p /\
     (settles v = Fulfilled true -> p = Fulfilled (ok v)) /\
     (settles v = Fulfilled false ->
      p = Fulfilled (fail [mkError [] (priority [m; opt_message o Kcustom]
                                                "Invalid value")])) /\
     (settles v = Rejected -> p = Rejected) /\
     (settles v = Unsettled -> p = Unsettled)) /\
  validate (deferred_leaf this settles m) VNull o
  = Ready (fail [mkError [] (priority [opt_message o Knullable]
                                      "Value cannot be null")]).
Proof.
  split.
  - intro Hn. eexists. split; [now apply deferred_leaf_outcome|].
    repeat split; intros ->; simpl; try reflexivity.
    unfold custom_result. now rewrite or_default_priority2.
  - unfold validate. simpl. rewrite or_default_priority2.
    now destruct (opt_message o Knullable).
Qed.

Lemma deferred_validate_follows_predicate_witness :
  is_null (VNum 1) = false /\
  exists p,
    validate (deferred_leaf (Validate.number None) (fun _ => Rejected) None)
             (VNum 1) None = Deferred p /\
    p = Rejected.
Proof.
  split; [reflexivity|].
  destruct (proj1 (deferred_validate_follows_predicate
                     (Validate.number None) (fun _ => Rejected) None (VNum 1)
                     None) eq_refl)
    as [p [Hp [_ [_ [Hrej _]]]]].
  exists p. split; [exact Hp|]. apply Hrej. reflexivity.
Defined.

(** ** What the options are read for *)

Section SameMessages.
Variables o o' : option ValidationOptions.
Hypothesis same : forall k, opt_message o k = opt_message o' k.

Lemma validate_same_messages (s : BaseSchema) :
  (forall v, is_null v = false -> validator s v o = validator s v o') ->
  forall v, validate s v o = validate s v o'.
Proof.
  intros Hs v. unfold validate. rewrite !same.
  destruct (is_null v) eqn:Hn; [reflexivity|].
  destruct (is_undefined v && isRequired s); [reflexivity|now apply Hs].
Qed.

Lemma forEach_same_messages (schema : BaseSchema) (items : list value) :
  (forall v, validate schema v o = validate schema v o') ->
  forall i st,
    forEach (array_step schema o) items i st
    = forEach (array_step schema o') items i st.
Proof.
  intro Hs. induction items as [|item items IH]; intros i st; simpl;
    [reflexivity|].
  rewrite IH. f_equal. unfold array_step. now rewrite Hs.
Qed.

Lemma fold_object_same_messages (v : value)
  (shape : list (string * BaseSchema)) :
  Forall (fun entry => forall x, validate (snd entry) x o
                                 = validate (snd entry) x o') shape ->
  forall st,
    fold_left (object_step v o) shape st
    = fold_left (object_step v o') shape st.
Proof.
  induction 1 as [|[key schema] shape Hs _ IH]; intro st; [reflexivity|].
  cbn [fold_left]. rewrite IH. f_equal. unfold object_step.
  simpl in Hs. now rewrite Hs.
Qed.

Lemma union_loop_same_messages (message : option string) (v : value)
  (schemas : list BaseSchema) :
  Forall (fun s => forall x, validate s x o = validate s x o') schemas ->
  forall acc,
    union_loop message schemas v o acc = union_loop message schemas v o' acc.
Proof.
  induction 1 as [|s schemas Hs _ IH]; intro acc; simpl; [reflexivity|].
  now rewrite Hs, IH.
Qed.

Ltac same_leaf :=
  intros v _; simpl; unfold custom_result; rewrite ?same; reflexivity.

Lemma Built_same_messages (s : BaseSchema) :
  Built s ->
  forall v, is_null v = false -> validator s v o = validator s v o'.
Proof.
  intro HB.
  induction HB using Built_mut
    with (P0 := fun shape =>
                  Forall (fun entry => forall x, validate (snd entry) x o
                                                 = validate (snd entry) x o')
                         shape)
         (P1 := fun schemas =>
                  Forall (fun b => forall x, validate b x o = validate b x o')
                         schemas);
    try solve [same_leaf].
  - intros v _. simpl. rewrite !same. destruct v; try reflexivity.
    now rewrite (forEach_same_messages s items
                   (validate_same_messages s IHHB)).
  - intros v _. simpl. rewrite !same.
    now rewrite (fold_object_same_messages v IHHB).
  - intros v _. simpl. now apply union_loop_same_messages.
  - exact IHHB.
  - exact IHHB.
  - constructor.
  - constructor; [|exact IHHB0].
    simpl. now apply validate_same_messages.
  - constructor.
  - constructor; [|exact IHHB0].
    now apply validate_same_messages.
Qed.

End SameMessages.

(** X20.  A built schema (synchronous predicates) reads the options for the
    nine message overrides and for nothing else: two options arguments that
    give the same override for every kind lead to the same outcome on every
    input.  So an absent options argument, an options object without
    [messages] and one whose [messages] is empty are interchangeable. *)
Theorem options_matter_through_messages_only (s : BaseSchema)
  (o o' : option ValidationOptions) (v : value) :
  Built s ->
  (forall k, opt_message o k = opt_message o' k) ->
  validate s v o = validate s v o'.
Proof.
  intros HB Hsame. apply validate_same_messages; [exact Hsame|].
  now apply Built_same_messages.
Qed.

Lemma options_matter_through_messages_only_witness :
  Built person /\
  validate person (VObj [("age", VStr "old")]) None
  = validate person (VObj [("age", VStr "old")])
             (Some (mkOptions (Some (mkMessages None None None None None None
                                                None None None)))).
Proof.
  assert (HB : Built person).
  { apply Built_object. apply BuiltShape_cons.
    - apply Built_required. apply Built_string.
    - apply BuiltShape_cons; [apply Built_number|apply BuiltShape_nil]. }
  split; [exact HB|].
  apply (@options_matter_through_messages_only person None
           (Some (mkOptions (Some (mkMessages None None None None None
                                              None None None None))))
           (VObj [("age", VStr "old")]) HB).
  intros []; reflexivity.
Defined.
